(** * VisuaLex: the resolution-and-caching layer of [app.py]

    A shallow embedding of the Flask application module [app.py]: the three
    [cachetools.TTLCache] instances and the [@cached] wrapper in front of
    [create_norma_instance], [extract_article_text] and
    [get_brocardi_information], the request handlers, and the life cycle of
    the browser driver in [export_pdf].

    Handlers are state transformers over a [World] that holds the module
    globals ([norma_cache], [article_cache], [brocardi_cache], [history]),
    the driver slot of [tools.sys_op], the environment (clock, files,
    network) and a trace of the log lines and collaborator calls the code
    performs.  Exceptions are values of [exn]; a raising computation keeps
    the state changes made before the raise, as in Python. *)

From Stdlib Require Import ZArith Lia Ascii String List.
From stdpp Require Import base decidable option list sorting strings gmap.

Open Scope Z_scope.
Open Scope string_scope.

(** ** Exceptions and results *)

Inductive exn : Type :=
  | KeyError (key : string)
  | ValueError (msg : string)
  | FileNotFoundError (src dst : string)
  | CollaboratorError (msg : string).

Inductive result (A : Type) : Type :=
  | Ok (a : A)
  | Raise (e : exn).
Arguments Ok {A} a.
Arguments Raise {A} e.

#[global] Instance exn_eq_dec : EqDecision exn.
Proof. solve_decision. Defined.

(** [str(e)] as used in [jsonify({'error': str(e)})].  [str(KeyError(k))]
    is the [repr] of the key, i.e. the key in single quotes. *)
Definition str_exn (e : exn) : string :=
  match e with
  | KeyError k => "'" ++ k ++ "'"
  | ValueError m => m
  | FileNotFoundError src dst =>
      "[Errno 2] No such file or directory: '" ++ src ++ "' -> '" ++ dst ++ "'"
  | CollaboratorError m => m
  end.

(** ** [cachetools.TTLCache]

    The cache is the list of its links in the order of the [OrderedDict]
    [__links]: least recently used first.  Every link carries the key, the
    value and the time at which it expires.  The expiry list of the library
    is ordered by insertion time; with the monotonic timer the library uses,
    [expire(time)] removes exactly the links with [expires <= time], which is
    the filter below. *)

Module TTL.
Section Cache.
Context {K V : Type} `{EqDecision K}.

Record link : Type := Link { lk_key : K; lk_val : V; lk_expires : Z }.

Record TTLCache : Type := Cache {
  maxsize : nat;
  ttl : Z;
  links : list link
}.

(** [TTLCache(maxsize=m, ttl=t)] *)
Definition new (m : nat) (t : Z) : TTLCache :=
  {| maxsize := m; ttl := t; links := [] |}.

Definition with_links (c : TTLCache) (ls : list link) : TTLCache :=
  {| maxsize := maxsize c; ttl := ttl c; links := ls |}.

Definition has_key (k : K) (l : link) : bool := bool_decide (lk_key l = k).
Definition other_key (k : K) (l : link) : bool := negb (has_key k l).

Definition find_link (k : K) (ls : list link) : option link :=
  List.find (has_key k) ls.

(** [__getlink]: [self.__links.move_to_end(key)] *)
Definition move_to_end (k : K) (ls : list link) : list link :=
  match find_link k ls with
  | Some l => List.filter (other_key k) ls ++ [l]
  | None => ls
  end.

(** [__getitem__]: [None] stands for the [KeyError] of [__missing__].  A
    link that is present but expired is still moved to the end by
    [__getlink] before the expiry test. *)
Definition getitem (now : Z) (k : K) (c : TTLCache) : option V * TTLCache :=
  match find_link k (links c) with
  | None => (None, c)
  | Some l =>
      let c' := with_links c (move_to_end k (links c)) in
      if bool_decide (now < lk_expires l) then (Some (lk_val l), c')
      else (None, c')
  end.

(** [expire(time)] *)
Definition expire (now : Z) (ls : list link) : list link :=
  List.filter (fun l => bool_decide (now < lk_expires l)) ls.

(** [TTLCache.__setitem__]: expired links are removed first; then
    [Cache.__setitem__] with [getsizeof = 1]: a value larger than [maxsize]
    is refused ([ValueError], which [cached] swallows); for a new key,
    [popitem] removes least recently used links while the cache is full; the
    link of the key is (re)created at the end of both lists with
    [expires = time + ttl]. *)
Definition setitem (now : Z) (k : K) (v : V) (c : TTLCache) : TTLCache :=
  if bool_decide (maxsize c < 1)%nat then with_links c (expire now (links c))
  else
    let ls1 := expire now (links c) in
    let ls2 :=
      match find_link k ls1 with
      | Some _ => ls1
      | None => drop (length ls1 + 1 - maxsize c) ls1
      end in
    with_links c
      (List.filter (other_key k) ls2 ++
       [{| lk_key := k; lk_val := v; lk_expires := now + ttl c |}]).

(** A live entry: present and not expired at time [now]. *)
Definition live (now : Z) (k : K) (c : TTLCache) : option V :=
  match find_link k (links c) with
  | Some l => if bool_decide (now < lk_expires l) then Some (lk_val l) else None
  | None => None
  end.

End Cache.
Arguments link : clear implicits.
Arguments TTLCache : clear implicits.
End TTL.

(** ** The data model of [tools.norma] *)

(** Modelled from the spec: [tools/norma.py] is not part of the sources at
    hand.  The classes [Norma] and [NormaVisitata] are the spec's Act and
    ActReference, "immutable value types": records compared field by field,
    whose constructor arguments left out at a call site default to [None]. *)
Record Norma : Type := mkNorma {
  tipo_atto : string;
  data : option string;
  numero_atto : option string;
  url : option string
}.

Record NormaVisitata : Type := mkNormaVisitata {
  norma : Norma;
  numero_articolo : option string;
  versione : option string;
  data_versione : option string;
  urn : option string
}.

#[global] Instance Norma_eq_dec : EqDecision Norma.
Proof. solve_decision. Defined.
#[global] Instance NormaVisitata_eq_dec : EqDecision NormaVisitata.
Proof. solve_decision. Defined.

(** The result triple of [BrocardiScraper.get_info]; an empty [position]
    stands for a falsy one. *)
Record brocardi_result : Type := mkBrocardi {
  position : string;
  info : string;
  link : string
}.

(** ** Request bodies and cache keys *)

(** A JSON object with string fields, in insertion order, as the [dict]
    returned by [request.get_json()].  Requests whose fields hold numbers,
    booleans, lists or objects are outside the model: what is proved of
    requests is proved of requests with string values. *)
Definition dict : Type := list (string * string).

(** [data.get(key)] *)
Fixpoint dict_get (key : string) (d : dict) : option string :=
  match d with
  | [] => None
  | (k, v) :: d' => if bool_decide (k = key) then Some v else dict_get key d'
  end.

(** Comparison of the [(name, value)] tuples of [data.items()]: by name, and
    by value for equal names. *)
Definition item_le (a b : string * string) : Prop :=
  if decide (a.1 = b.1) then String.le a.2 b.2 else String.le a.1 b.1.

#[global] Instance item_le_dec : RelDecision item_le.
Proof. intros a b. unfold item_le. destruct (decide (a.1 = b.1)); apply _. Defined.

(** [tuple(sorted(data.items()))] *)
Definition convert_to_hashable (data : dict) : list (string * string) :=
  merge_sort item_le data.

(** ** Paths ([os.path] on POSIX) *)

Definition is_abs (p : string) : bool :=
  match p with
  | String c _ => bool_decide (c = "/"%char)
  | EmptyString => false
  end.

Fixpoint ends_with_sep (p : string) : bool :=
  match p with
  | EmptyString => false
  | String c EmptyString => bool_decide (c = "/"%char)
  | String _ p' => ends_with_sep p'
  end.

(** [os.path.join(a, *ps)] *)
Fixpoint os_path_join (a : string) (ps : list string) : string :=
  match ps with
  | [] => a
  | b :: ps' =>
      os_path_join
        (if is_abs b then b
         else if bool_decide (a = EmptyString) || ends_with_sep a then a ++ b
         else a ++ "/" ++ b)
        ps'
  end.

(** Truth value of a string: [not s] holds for [None] and for the empty
    string, both written as the empty string here. *)
Definition falsy (s : string) : bool := bool_decide (s = EmptyString).

(** ** The world the handlers run in *)

Inductive level : Type := INFO | ERROR.

Section App.
(** State of the network and of the remote sites, opaque to the
    application; the type of browser drivers; the structural tree. *)
Context {Ext Driver Tree : Type}.

(** What the environment holds: the monotonic clock read by the caches, the
    set of existing files (absolute paths), and the rest. *)
Record Env : Type := mkEnv {
  clock : Z;
  files : gset string;
  net : Ext
}.

(** The collaborators of [app.py] whose code lives in [tools/] and in the
    libraries: functions of their arguments where the spec describes them
    as derived data (like every call they may raise), transformers of the
    environment where they do input and output (they may take time, touch
    files and fail). *)
Record Tools : Type := mkTools {
  cwd : string;                                    (* os.getcwd() *)
  get_urn : NormaVisitata -> result string;        (* NormaVisitata.get_urn *)
  to_dict : NormaVisitata -> result dict;          (* NormaVisitata.to_dict *)
  tree : NormaVisitata -> result Tree;             (* NormaVisitata.tree *)
  extract_html_article : NormaVisitata -> Env -> result string * Env;
  get_info : NormaVisitata -> Env -> result brocardi_result * Env;
  urn_to_filename : string -> string;              (* urngenerator *)
  new_driver : Env -> result Driver * Env;         (* the browser start-up *)
  extract_pdf : Driver -> string -> Env -> result string * Env;
  url_for : string -> string                       (* url_for('downloaded_file', filename=...) *)
}.

Context (T : Tools).

(** What the code does that an observer can see: log lines (the format
    string of the message, values not filled in) and calls to the
    collaborators. *)
Inductive event : Type :=
  | Log (lvl : level) (msg : string)
  | CallExtractHtmlArticle (nv : NormaVisitata)
  | CallGetInfo (nv : NormaVisitata)
  | CallSetupDriver
  | CallExtractPdf (d : Driver) (urn : string)
  | CallCloseDriver
  | CallRename (src dst : string).

Record World : Type := mkWorld {
  env : Env;
  norma_cache : TTL.TTLCache (list (string * string)) NormaVisitata;
  article_cache : TTL.TTLCache (Norma * string) string;
  brocardi_cache : TTL.TTLCache string brocardi_result;
  history : list NormaVisitata;
  drivers : list Driver;                           (* sys_op.drivers *)
  trace : list event
}.

(** The module-level state right after import. *)
Definition initial (e : Env) : World :=
  {| env := e;
     norma_cache := TTL.new 100 600;
     article_cache := TTL.new 100 600;
     brocardi_cache := TTL.new 100 600;
     history := [];
     drivers := [];
     trace := [] |}.

Definition with_env (e : Env) (w : World) : World :=
  mkWorld e (norma_cache w) (article_cache w) (brocardi_cache w)
          (history w) (drivers w) (trace w).
Definition with_norma_cache c (w : World) : World :=
  mkWorld (env w) c (article_cache w) (brocardi_cache w)
          (history w) (drivers w) (trace w).
Definition with_article_cache c (w : World) : World :=
  mkWorld (env w) (norma_cache w) c (brocardi_cache w)
          (history w) (drivers w) (trace w).
Definition with_brocardi_cache c (w : World) : World :=
  mkWorld (env w) (norma_cache w) (article_cache w) c
          (history w) (drivers w) (trace w).
Definition with_history h (w : World) : World :=
  mkWorld (env w) (norma_cache w) (article_cache w) (brocardi_cache w)
          h (drivers w) (trace w).
Definition with_drivers ds (w : World) : World :=
  mkWorld (env w) (norma_cache w) (article_cache w) (brocardi_cache w)
          (history w) ds (trace w).
Definition with_trace tr (w : World) : World :=
  mkWorld (env w) (norma_cache w) (article_cache w) (brocardi_cache w)
          (history w) (drivers w) tr.

(** *** Computations: state and exceptions *)

Definition M (A : Type) : Type := World -> result A * World.

Definition ret {A} (a : A) : M A := fun w => (Ok a, w).
Definition raise {A} (e : exn) : M A := fun w => (Raise e, w).
Definition bind {A B} (m : M A) (k : A -> M B) : M B :=
  fun w => match m w with
           | (Ok a, w') => k a w'
           | (Raise e, w') => (Raise e, w')
           end.

Notation "x <- m ;; k" := (bind m (fun x => k))
  (at level 20, m at level 99, k at level 200, only parsing).
Notation "m ;; k" := (bind m (fun _ => k))
  (at level 100, k at level 200, only parsing, right associativity).

(** [try: m except Exception as e: h e] *)
Definition try_except {A} (m : M A) (h : exn -> M A) : M A :=
  fun w => match m w with
           | (Ok a, w') => (Ok a, w')
           | (Raise e, w') => h e w'
           end.

(** [try: m finally: fin]: [fin] runs on every exit of [m]; the outcome of
    [m] stands unless [fin] itself raises. *)
Definition try_finally {A} (m : M A) (fin : M unit) : M A :=
  fun w => let (r, w') := m w in
           match fin w' with
           | (Ok _, w'') => (r, w'')
           | (Raise e, w'') => (Raise e, w'')
           end.

Definition emit (ev : event) : M unit :=
  fun w => (Ok tt, with_trace (trace w ++ [ev]) w).

Definition logging_info (msg : string) : M unit := emit (Log INFO msg).
Definition logging_error (msg : string) : M unit := emit (Log ERROR msg).

(** A collaborator that acts on the environment. *)
Definition call {A} (f : Env -> result A * Env) : M A :=
  fun w => let (r, e') := f (env w) in (r, with_env e' w).

(** A call that returns or raises and touches nothing. *)
Definition eval {A} (r : result A) : M A := fun w => (r, w).

(** [[f(x) for x in xs]]: the first call that raises ends the loop. *)
Fixpoint map_result {A B} (f : A -> result B) (xs : list A)
  : result (list B) :=
  match xs with
  | [] => Ok []
  | x :: xs' =>
      match f x with
      | Ok y =>
          match map_result f xs' with
          | Ok ys => Ok (y :: ys)
          | Raise e => Raise e
          end
      | Raise e => Raise e
      end
  end.

(** [data[key]] *)
Definition dict_getitem (key : string) (d : dict) : M string :=
  match dict_get key d with
  | Some v => ret v
  | None => raise (KeyError key)
  end.

(** *** [cachetools.cached(cache, key=...)] without a lock

    [wrapper]: look the key up; on a hit return the value; on a miss call
    the function and, if it returns, store its value.  An exception of the
    function passes through and nothing is stored.  The cache is a module
    global, reached through a lens into the world. *)
Record lens (K V : Type) : Type := mkLens {
  view : World -> TTL.TTLCache K V;
  over : TTL.TTLCache K V -> World -> World
}.
Arguments view {K V} _ _.
Arguments over {K V} _ _ _.

Definition lookup_step {K V} `{EqDecision K} (L : lens K V) (k : K) : M (option V) :=
  fun w => let (r, c') := TTL.getitem (clock (env w)) k (view L w) in
           (Ok r, over L c' w).

Definition store_step {K V} `{EqDecision K} (L : lens K V) (k : K) (v : V) : M V :=
  fun w => (Ok v, over L (TTL.setitem (clock (env w)) k v (view L w)) w).

Definition cached {K V} `{EqDecision K} (L : lens K V) (k : K) (func : M V) : M V :=
  r <- lookup_step L k ;;
  match r with
  | Some v => ret v
  | None => v <- func ;; store_step L k v
  end.

Definition norma_cache_lens := mkLens _ _ norma_cache with_norma_cache.
Definition article_cache_lens := mkLens _ _ article_cache with_article_cache.
Definition brocardi_cache_lens := mkLens _ _ brocardi_cache with_brocardi_cache.

(** *** Responses ([jsonify(...)]) *)

Inductive response : Type :=
  | JsonNorma (norma_data : dict) (tree : Tree) (urn : string)
  | JsonResult (result : string)
  | JsonBrocardi (brocardi_info : option brocardi_result)
  | JsonHistory (entries : list dict)
  | JsonPdfUrl (pdf_url : string)
  | JsonError (error : string).

(** *** [/create_norma] *)

Definition create_norma_instance__wrapped (data : dict) : M NormaVisitata :=
  act_type <- dict_getitem "act_type" data ;;
  date <- dict_getitem "date" data ;;
  act_number <- dict_getitem "act_number" data ;;
  article <- dict_getitem "article" data ;;
  version <- dict_getitem "version" data ;;
  let version_date := dict_get "version_date" data in
  let normavisitata :=
    mkNormaVisitata (mkNorma act_type (Some date) (Some act_number) None)
                    (Some article) (Some version) version_date None in
  logging_info "Created NormaVisitata: {normavisitata}" ;;
  ret normavisitata.

(** [@cached(norma_cache, key=convert_to_hashable)] *)
Definition create_norma_instance (data : dict) : M NormaVisitata :=
  cached norma_cache_lens (convert_to_hashable data)
         (create_norma_instance__wrapped data).

Definition history_append (nv : NormaVisitata) : M unit :=
  fun w => (Ok tt, with_history (history w ++ [nv]) w).

Definition create_norma (data : dict) : M response :=
  try_except
    (logging_info "Received data for create_norma: {data}" ;;
     normavisitata <- create_norma_instance data ;;
     norma_data <- eval (to_dict T normavisitata) ;;
     tree <- eval (tree T normavisitata) ;;
     history_append normavisitata ;;
     logging_info "Appended NormaVisitata to history. Current history size: {len(history)}" ;;
     urn <- eval (get_urn T normavisitata) ;;
     ret (JsonNorma norma_data tree urn))
    (fun e =>
       logging_error "Error in create_norma: {e}" ;;
       ret (JsonError (str_exn e))).

(** *** [/extract_article] *)

Definition extract_article_text__wrapped (norma : Norma) (article : string)
  : M string :=
  let normavisitata :=
    mkNormaVisitata norma (Some article) None None (url norma) in
  norma_art_text <-
    (if falsy article then ret EmptyString
     else emit (CallExtractHtmlArticle normavisitata) ;;
          call (extract_html_article T normavisitata)) ;;
  logging_info "Extracted article text: {norma_art_text}" ;;
  ret norma_art_text.

(** [@cached(article_cache, key=lambda urn, article: (urn, article))]: the
    key function receives the arguments of the call, the [Norma] object and
    the article. *)
Definition extract_article_text (norma : Norma) (article : string) : M string :=
  cached article_cache_lens (norma, article)
         (extract_article_text__wrapped norma article).

Definition extract_article (data : dict) : M response :=
  try_except
    (logging_info "Received data for extract_article: {data}" ;;
     urn <- dict_getitem "urn" data ;;
     article <- dict_getitem "article" data ;;
     let norma := mkNorma "costituzione" None None (Some urn) in
     norma_art_text <- extract_article_text norma article ;;
     ret (JsonResult norma_art_text))
    (fun e =>
       logging_error "Error in extract_article: {e}" ;;
       ret (JsonError (str_exn e))).

(** *** [/brocardi_info] *)

Definition get_brocardi_information__wrapped (urn : string)
  : M brocardi_result :=
  let norma := mkNorma "costituzione" None None (Some urn) in
  let normavisitata := mkNormaVisitata norma None None None (Some urn) in
  emit (CallGetInfo normavisitata) ;;
  call (get_info T normavisitata).

(** [@cached(brocardi_cache, key=lambda urn: urn)] *)
Definition get_brocardi_information (urn : string) : M brocardi_result :=
  cached brocardi_cache_lens urn (get_brocardi_information__wrapped urn).

Definition brocardi_info (data : dict) : M response :=
  try_except
    (logging_info "Received data for brocardi_info: {data}" ;;
     urn <- dict_getitem "urn" data ;;
     r <- get_brocardi_information urn ;;
     ret (JsonBrocardi (if falsy (position r) then None else Some r)))
    (fun e =>
       logging_error "Error in brocardi_info: {e}" ;;
       ret (JsonError (str_exn e))).

(** *** [/history] *)

Definition get_history : M response :=
  try_except
    (logging_info "Fetching history" ;;
     history <- (fun w => (Ok (history w), w)) ;;
     history_list <- eval (map_result (to_dict T) history) ;;
     ret (JsonHistory history_list))
    (fun e =>
       logging_error "Error in get_history: {e}" ;;
       ret (JsonError (str_exn e))).

(** *** Files ([os]) *)

Definition abspath (p : string) : string :=
  if is_abs p then p else os_path_join (cwd T) [p].

Definition os_path_exists (p : string) : M bool :=
  fun w => (Ok (bool_decide (abspath p ∈ files (env w))), w).

Definition set_files (fs : gset string) : M unit :=
  fun w => (Ok tt, with_env (mkEnv (clock (env w)) fs (net (env w))) w).

(** [os.rename(src, dst)]: relative paths are taken from the working
    directory; a missing source raises.  The files are a set of paths:
    directories are not told apart, so the failure of a rename into a
    directory that does not exist is not part of the model. *)
Definition os_rename (src dst : string) : M unit :=
  emit (CallRename src dst) ;;
  fun w =>
    if bool_decide (abspath src ∈ files (env w))
    then set_files ({[abspath dst]} ∪ (files (env w) ∖ {[abspath src]})) w
    else (Raise (FileNotFoundError src dst), w).

(** *** The driver slot ([tools.sys_op]) *)

(** Modelled from the spec: [tools/sys_op.py] is not at hand.  Following
    the Shared Resource Manager of the spec, [setup_driver] creates a
    handle, which may fail, stores it in the shared slot [drivers] and
    returns it. *)
Definition setup_driver : M Driver :=
  emit CallSetupDriver ;;
  d <- call (new_driver T) ;;
  fun w => (Ok d, with_drivers (drivers w ++ [d]) w).

(** Modelled from the spec: [tools/sys_op.py] is not at hand.  [release]
    "closes the current handle if one exists and clears the shared slot;
    calling release with no live handle is a no-op, not an error". *)
Definition close_driver : M unit :=
  emit CallCloseDriver ;;
  fun w => (Ok tt, with_drivers [] w).

(** *** [/export_pdf] *)

Definition export_pdf (data : dict) : M response :=
  try_finally
    (try_except
       (urn <- dict_getitem "urn" data ;;
        logging_info "Received data for export_pdf: {urn}" ;;
        let filename := urn_to_filename T urn in
        (if falsy filename then raise (ValueError "Invalid URN") else ret tt) ;;
        let pdf_path := os_path_join (cwd T) ["download"; filename] in
        logging_info "PDF {filename} path: {pdf_path}" ;;
        present <- os_path_exists pdf_path ;;
        (if negb present then
           ds <- (fun w => (Ok (drivers w), w)) ;;
           driver <- match ds with
                     | [] => setup_driver
                     | d :: _ => ret d
                     end ;;
           pdf_path <- (emit (CallExtractPdf driver urn) ;;
                        call (extract_pdf T driver urn)) ;;
           (if falsy pdf_path then raise (ValueError "Error generating PDF")
            else ret tt) ;;
           os_rename (os_path_join (cwd T) ["download"; pdf_path]) pdf_path ;;
           logging_info "PDF {filename} generated and saved: {pdf_path}"
         else ret tt) ;;
        ret (JsonPdfUrl (url_for T filename)))
       (fun e =>
          logging_error "Error in export_pdf: {e}" ;;
          ret (JsonError (str_exn e))))
    (close_driver ;;
     logging_info "Driver closed").

End App.

Arguments view {Ext Driver K V} _ _.
Arguments over {Ext Driver K V} _ _ _.

(** ** Concurrent callers of a cached function

    [cached] is used without a lock, so a call of the wrapper is three steps
    on the shared cache: the lookup, the call of the function after a miss,
    and the store.  Several callers of the same function with the same key
    are threads that each go through these steps; a schedule says which
    thread moves next. *)

Inductive pc (V : Type) : Type :=
  | Start
  | Missed
  | Computed (v : V)
  | Done (r : result V).
Arguments Start {V}.
Arguments Missed {V}.
Arguments Computed {V} v.
Arguments Done {V} r.

Section Concurrent.
Context {Ext Driver : Type} {K V : Type} `{EqDecision K}.
Context (L : @lens Ext Driver K V) (k : K) (func : @M Ext Driver V).

Definition thread_step (w : World) (p : pc V) : World * pc V :=
  match p with
  | Start =>
      match lookup_step L k w with
      | (Ok (Some v), w') => (w', Done (Ok v))
      | (Ok None, w') => (w', Missed)
      | (Raise e, w') => (w', Done (Raise e))
      end
  | Missed =>
      match func w with
      | (Ok v, w') => (w', Computed v)
      | (Raise e, w') => (w', Done (Raise e))
      end
  | Computed v => (snd (store_step L k v w), Done (Ok v))
  | Done r => (w, Done r)
  end.

(** The shared world, the callers, and how often the function has been
    called so far. *)
Record config : Type := mkConfig {
  world : @World Ext Driver;
  threads : list (pc V);
  computes : nat
}.

Definition is_missed (p : pc V) : bool :=
  match p with Missed => true | _ => false end.

Definition sched_step (cfg : config) (i : nat) : config :=
  match threads cfg !! i with
  | Some p =>
      let (w', p') := thread_step (world cfg) p in
      {| world := w';
         threads := <[i := p']> (threads cfg);
         computes := (computes cfg + (if is_missed p then 1 else 0))%nat |}
  | None => cfg
  end.

Definition run (sched : list nat) (cfg : config) : config :=
  fold_left sched_step sched cfg.

(** [n] callers about to enter the wrapper. *)
Definition callers (n : nat) (w : World) : config :=
  {| world := w; threads := replicate n Start; computes := 0 |}.

Definition finished (p : pc V) : bool :=
  match p with Done _ => true | _ => false end.

(** Time passes: the next caller finds the environment [e]. *)
Definition arrive (cfg : config) (e : Env) : config :=
  {| world := with_env e (world cfg);
     threads := threads cfg;
     computes := computes cfg |}.

(** One caller after the other, over time: caller [0] runs its three steps
    in the world as it is; each later caller starts when the one before has
    returned, in the environment listed for it in [es], and runs its three
    steps before the next one starts. *)
Definition run_sequential (es : list Env) (cfg : config) : config :=
  fold_left (fun cfg '(i, e) => run [i; i; i] (arrive cfg e))
            (zip (seq 1 (length es)) es)
            (run [0; 0; 0]%nat cfg).

(** Single flight, as the memoization layer is specified: whatever the
    schedule, once all callers have returned the function has been called
    once and they all hold the same result. *)
Definition single_flight : Prop :=
  forall (n : nat) (w : World) (sched : list nat),
    (0 < n)%nat ->
    TTL.live (clock (env w)) k (view L w) = None ->
    let cfg := run sched (callers n w) in
    forallb finished (threads cfg) = true ->
    computes cfg = 1%nat /\
    exists r, Forall (fun p => p = Done r) (threads cfg).
End Concurrent.

(** ** Operations on a cache over time *)

Inductive cache_op (K V : Type) : Type :=
  | OpGet (now : Z) (k : K)
  | OpSet (now : Z) (k : K) (v : V).
Arguments OpGet {K V} now k.
Arguments OpSet {K V} now k v.

Definition apply_op {K V} `{EqDecision K} (c : TTL.TTLCache K V) (o : cache_op K V)
  : TTL.TTLCache K V :=
  match o with
  | OpGet now k => snd (TTL.getitem now k c)
  | OpSet now k v => TTL.setitem now k v c
  end.

Definition run_ops {K V} `{EqDecision K} (ops : list (cache_op K V))
  (c : TTL.TTLCache K V) : TTL.TTLCache K V :=
  fold_left apply_op ops c.

Definition sets_key {K V} `{EqDecision K} (k : K) (o : cache_op K V) : bool :=
  match o with
  | OpGet _ _ => false
  | OpSet _ k' _ => bool_decide (k' = k)
  end.


(** ** The Identifier Builder *)

Module Identifier.

(** Modelled from the spec: the Identifier Builder ([tools/urngenerator.py])
    is not part of the sources at hand.  These are the Act and ActReference
    of the data model, restricted to the attributes the grammar of the
    identifier has a segment for.  Date, number, article and version date
    are optional; a reference always has a version label. *)
Record Act : Type := mkAct {
  act_type : string;
  date : option string;
  number : option string
}.

Record ActReference : Type := mkRef {
  act : Act;
  article : option string;
  version : string;
  version_date : option string
}.

Inductive parsed : Type :=
  | Parsed (r : ActReference)
  | MalformedIdentifier.

(** The characters that delimit the segments of the grammar. *)
Definition is_sep (c : ascii) : bool :=
  bool_decide (c = ":"%char) || bool_decide (c = ";"%char) ||
  bool_decide (c = "~"%char) || bool_decide (c = "!"%char) ||
  bool_decide (c = "@"%char).

Fixpoint sep_free (s : string) : bool :=
  match s with
  | EmptyString => true
  | String c s' => negb (is_sep c) && sep_free s'
  end.

(** A segment value: not empty, and free of delimiters. *)
Definition field (s : string) : bool :=
  negb (bool_decide (s = EmptyString)) && sep_free s.

Definition opt_field (o : option string) : bool :=
  match o with
  | Some s => field s
  | None => true
  end.

(** The version label that the identifier leaves out: in the end-to-end
    example of the spec the reference with version [current] has the
    identifier [...:statute:1990-01-01;9~art3], without a version segment. *)
Definition current : string := "current".

(** The label in the version segment, if there is one. *)
Definition version_segment (v : string) : option string :=
  if bool_decide (v = current) then None else Some v.

(** The version label of an identifier with this version segment. *)
Definition version_of (seg : option string) : string :=
  match seg with Some v => v | None => current end.

(** A valid reference: every attribute present is a segment value, and a
    [current] version carries no pinning date (the invariant of the data
    model). *)
Definition valid (r : ActReference) : bool :=
  field (act_type (act r)) && opt_field (date (act r)) &&
  opt_field (number (act r)) && opt_field (article r) &&
  field (version r) && opt_field (version_date r) &&
  (negb (bool_decide (version r = current)) ||
   negb (bool_decide (is_Some (version_date r)))).

Definition seg_date (d : option string) : string :=
  match d with Some d => d ++ ";" | None => EmptyString end.
Definition seg_number (n : option string) : string :=
  match n with Some n => n | None => EmptyString end.
Definition seg_article (a : option string) : string :=
  match a with Some a => "~art" ++ a | None => EmptyString end.
Definition seg_version (v vd : option string) : string :=
  match v with
  | Some v => "!" ++ v ++ match vd with Some d => "@" ++ d | None => EmptyString end
  | None => EmptyString
  end.

Fixpoint split_at (c : ascii) (s : string) : string * option string :=
  match s with
  | EmptyString => (EmptyString, None)
  | String a s' =>
      if bool_decide (a = c) then (EmptyString, Some s')
      else let (x, y) := split_at c s' in (String a x, y)
  end.

Fixpoint strip_prefix (p s : string) : option string :=
  match p, s with
  | EmptyString, _ => Some s
  | String a p', String b s' =>
      if bool_decide (a = b) then strip_prefix p' s' else None
  | String _ _, EmptyString => None
  end.

Definition parse_field (s : string) : option string :=
  if field s then Some s else None.

(** An optional segment: empty when the attribute is absent. *)
Definition parse_opt_field (s : string) : option (option string) :=
  if bool_decide (s = EmptyString) then Some None
  else if field s then Some (Some s) else None.

Definition parse_date_number (s : string)
  : option (option string * option string) :=
  match split_at ";" s with
  | (d, Some n) =>
      d' ← parse_field d; n' ← parse_opt_field n; Some (Some d', n')
  | (n, None) => n' ← parse_opt_field n; Some (None, n')
  end.

Definition parse_article (o : option string) : option (option string) :=
  match o with
  | None => Some None
  | Some s => a ← strip_prefix "art" s; a' ← parse_field a; Some (Some a')
  end.

(** The label of a version segment: a segment value other than
    [current], which is written as no segment. *)
Definition parse_label (s : string) : option string :=
  if bool_decide (s = current) then None else parse_field s.

Definition parse_version (o : option string)
  : option (option string * option string) :=
  match o with
  | None => Some (None, None)
  | Some s =>
      match split_at "@" s with
      | (v, Some d) => v' ← parse_label v; d' ← parse_field d; Some (Some v', Some d')
      | (v, None) => v' ← parse_label v; Some (Some v', None)
      end
  end.

Section Grammar.
(** The two leading segments are fixed for a deployment. *)
Variables scheme authority : string.

Definition prefix : string := scheme ++ ":" ++ authority ++ ":".

(** [scheme ":" authority ":" act-type ":" [date ";"] [number]
     ["~art" article] ["!" version ["@" version-date]]], the version
    segment being left out for the version [current]. *)
Definition build (r : ActReference) : string :=
  prefix ++ act_type (act r) ++ ":" ++
  seg_date (date (act r)) ++ seg_number (number (act r)) ++
  seg_article (article r) ++
  seg_version (version_segment (version r)) (version_date r).

Definition parse_body (s : string) : option ActReference :=
  match split_at ":" s with
  | (_, None) => None
  | (t, Some body) =>
      let (main, ver) := split_at "!" body in
      let (dn, art) := split_at "~" main in
      t' ← parse_field t;
      '(d, n) ← parse_date_number dn;
      a ← parse_article art;
      '(v, vd) ← parse_version ver;
      Some (mkRef (mkAct t' d n) a (version_of v) vd)
  end.

Definition parse (s : string) : parsed :=
  match strip_prefix prefix s ≫= parse_body with
  | Some r => Parsed r
  | None => MalformedIdentifier
  end.

(** The strings of the grammar, written out segment by segment: every
    segment present holds a segment value, a version date comes in a version
    segment, and the label of a version segment is not [current]. *)
Definition matches_grammar (s : string) : Prop :=
  exists (t : string) (d n a v vd : option string),
    field t = true /\ opt_field d = true /\ opt_field n = true /\
    opt_field a = true /\ opt_field v = true /\ opt_field vd = true /\
    (v = None -> vd = None) /\ v <> Some current /\
    s = prefix ++ t ++ ":" ++ seg_date d ++ seg_number n ++
        seg_article a ++ seg_version v vd.
End Grammar.

End Identifier.


(** ** Auxiliary notions used in the statements *)

(** Every link of key [k] expires by [B]. *)
Definition expires_by {K V} (k : K) (B : Z) (c : TTL.TTLCache K V) : Prop :=
  forall l, In l (TTL.links c) -> TTL.lk_key l = k -> TTL.lk_expires l <= B.

(** The laws of a lens onto one of the caches of the world: it reads what
    was written, and writing the cache or changing the environment leaves the
    other one alone. *)
Record lens_ok {Ext Driver K V} (L : @lens Ext Driver K V) : Prop := {
  view_over : forall c w, view L (over L c w) = c;
  env_over : forall c w, env (over L c w) = env w;
  trace_over : forall c w, trace (over L c w) = trace w;
  view_with_env : forall e w, view L (with_env e w) = view L w
}.

(** The world in which the function runs after a miss: the lookup has moved
    the link of the key, if there is one, to the end. *)
Definition after_lookup {Ext Driver K V} `{EqDecision K}
  (L : @lens Ext Driver K V) (k : K) (w : World) : World :=
  over L (snd (TTL.getitem (clock (env w)) k (view L w))) w.

(** The path of the wrapper after a miss: call the function, store its
    value. *)
Definition compute_and_store {Ext Driver K V} `{EqDecision K}
  (L : @lens Ext Driver K V) (k : K) (func : M V) : M V :=
  bind func (store_step L k).

(** The caches as [app.py] configures them. *)
Definition configured {Ext Driver} (w : @World Ext Driver) : Prop :=
  TTL.maxsize (norma_cache w) = 100%nat /\ TTL.ttl (norma_cache w) = 600 /\
  TTL.maxsize (article_cache w) = 100%nat /\ TTL.ttl (article_cache w) = 600 /\
  TTL.maxsize (brocardi_cache w) = 100%nat /\ TTL.ttl (brocardi_cache w) = 600.

(** Classification of events. *)
Definition is_release {Driver} (ev : @event Driver) : bool :=
  match ev with CallCloseDriver => true | _ => false end.
Definition is_setup {Driver} (ev : @event Driver) : bool :=
  match ev with CallSetupDriver => true | _ => false end.
Definition is_render {Driver} (ev : @event Driver) : bool :=
  match ev with CallExtractPdf _ _ => true | _ => false end.

(** The events a step from [w] to [w'] has added to the trace. *)
Definition new_events {Ext Driver} (w w' : @World Ext Driver) : list event :=
  drop (length (trace w)) (trace w').

(** The path at which [export_pdf] looks for the file of an identifier. *)
Definition derived_path {Ext Driver Tree} (T : @Tools Ext Driver Tree)
  (urn : string) : string :=
  abspath T (os_path_join (cwd T) ["download"; urn_to_filename T urn]).

(** Two consecutive successful exports of which the first creates a handle
    and the second finds the slot still filled and renders with it, creating
    none. *)
Definition handle_reused {Ext Driver Tree} (T : @Tools Ext Driver Tree)
  (w : World) (data1 data2 : dict) : Prop :=
  let (r1, w1) := export_pdf T data1 w in
  let (r2, w2) := export_pdf T data2 w1 in
  (exists u1, r1 = Ok (JsonPdfUrl u1)) /\
  (exists u2, r2 = Ok (JsonPdfUrl u2)) /\
  existsb is_setup (new_events w w1) = true /\
  drivers w1 <> [] /\
  existsb is_render (new_events w1 w2) = true /\
  existsb is_setup (new_events w1 w2) = false.

(** Idempotent export, as specified: two exports of the same identifier in
    a row call the rendering collaborator at most once, and after a
    successful export the second one returns the same location without
    calling it. *)
Definition idempotent_export {Ext Driver Tree} (T : @Tools Ext Driver Tree)
  : Prop :=
  forall (w : World) (data : dict),
    let w1 := snd (export_pdf T data w) in
    let w2 := snd (export_pdf T data w1) in
    (length (List.filter is_render (new_events w w2)) <= 1)%nat /\
    forall u : string,
      fst (export_pdf T data w) = Ok (JsonPdfUrl u) ->
      fst (export_pdf T data w1) = Ok (JsonPdfUrl u) /\
      existsb is_render (new_events w1 w2) = false.

(** ** Concrete collaborators, for examples *)

Module Demo.

Definition filename_of (u : string) : string :=
  if bool_decide (u = EmptyString) then EmptyString else u ++ ".pdf".

Definition add_file (p : string) (e : @Env unit) : @Env unit :=
  mkEnv (clock e) ({[p]} ∪ files e) (net e).

Definition tick (e : @Env unit) : @Env unit :=
  mkEnv (clock e + 1) (files e) (net e).

(** A renderer that stores the file under the derived name in the download
    directory and returns its absolute path. *)
Definition tools : @Tools unit nat unit :=
  {| cwd := "/srv";
     get_urn := fun nv => Ok (default EmptyString (urn nv));
     to_dict := fun _ => Ok [];
     tree := fun _ => Ok tt;
     extract_html_article := fun _ e => (Ok "text", tick e);
     get_info := fun _ e => (Ok (mkBrocardi "1" "ratio" "href"), tick e);
     urn_to_filename := filename_of;
     new_driver := fun e => (Ok 1%nat, e);
     extract_pdf := fun _ u e =>
       let p := "/srv/download/" ++ filename_of u in
       (Ok p, add_file p (tick e));
     url_for := fun f => "/download/" ++ f |}.

(** A renderer that stores the file in the download directory and returns
    its bare name, which is what the [os.path.join] of [export_pdf] on the
    returned value expects. *)
Definition tools_relative : @Tools unit nat unit :=
  {| cwd := "/srv";
     get_urn := fun nv => Ok (default EmptyString (urn nv));
     to_dict := fun _ => Ok [];
     tree := fun _ => Ok tt;
     extract_html_article := fun _ e => (Ok "text", tick e);
     get_info := fun _ e => (Ok (mkBrocardi "1" "ratio" "href"), tick e);
     urn_to_filename := filename_of;
     new_driver := fun e => (Ok 1%nat, e);
     extract_pdf := fun _ u e =>
       (Ok (filename_of u), add_file ("/srv/download/" ++ filename_of u) (tick e));
     url_for := fun f => "/download/" ++ f |}.

(** A renderer that fails. *)
Definition tools_failing : @Tools unit nat unit :=
  {| cwd := "/srv";
     get_urn := fun nv => Ok (default EmptyString (urn nv));
     to_dict := fun _ => Ok [];
     tree := fun _ => Ok tt;
     extract_html_article := fun _ e => (Ok "text", tick e);
     get_info := fun _ e => (Ok (mkBrocardi "1" "ratio" "href"), tick e);
     urn_to_filename := filename_of;
     new_driver := fun e => (Ok 1%nat, e);
     extract_pdf := fun _ _ e => (Raise (CollaboratorError "RenderFailed"), tick e);
     url_for := fun f => "/download/" ++ f |}.

Definition env0 : @Env unit := mkEnv 0 ∅ tt.
Definition world0 : @World unit nat := initial env0.

Definition request_urn : dict := [("urn", "urn:nir:stato:costituzione")].

Definition request_norma : dict :=
  [("act_type", "legge"); ("date", "1990-01-01"); ("act_number", "9");
   ("article", "3"); ("version", "vigente")].

Definition request_norma_permuted : dict :=
  [("version", "vigente"); ("article", "3"); ("act_type", "legge");
   ("act_number", "9"); ("date", "1990-01-01")].

Definition request_article : dict :=
  [("urn", "urn:nir:stato:costituzione"); ("article", "3")].

Definition request_article_permuted : dict :=
  [("article", "3"); ("urn", "urn:nir:stato:costituzione")].

End Demo.

(** A function that leaves the cache it is wrapped with alone. *)
Definition leaves_cache {Ext Driver K V A} (L : @lens Ext Driver K V)
  (func : M A) : Prop :=
  forall w, view L (snd (func w)) = view L w.

(** The resolution cache holds, under every key, the reference that
    [create_norma_instance] builds from the fields of that key. *)
Definition norma_cache_ok {Ext Driver} (w : @World Ext Driver) : Prop :=
  forall l, In l (TTL.links (norma_cache w)) ->
    forall w0 : @World Ext Driver,
      fst (create_norma_instance__wrapped (TTL.lk_key l) w0) = Ok (TTL.lk_val l).

(** The response of [create_norma] to an outcome of the cached function:
    the data, the tree and the identifier derived from the reference, or the
    first error on the way. *)
Definition norma_response {Ext Driver Tree} (T : @Tools Ext Driver Tree)
  (r : result NormaVisitata) : @response Tree :=
  match r with
  | Ok nv =>
      match to_dict T nv with
      | Ok norma_data =>
          match tree T nv with
          | Ok tr =>
              match get_urn T nv with
              | Ok u => JsonNorma norma_data tr u
              | Raise e => JsonError (str_exn e)
              end
          | Raise e => JsonError (str_exn e)
          end
      | Raise e => JsonError (str_exn e)
      end
  | Raise e => JsonError (str_exn e)
  end.

(** The character [c] does not occur in [s]. *)
Fixpoint char_free (c : ascii) (s : string) : bool :=
  match s with
  | EmptyString => true
  | String a s' => negb (bool_decide (a = c)) && char_free c s'
  end.

Module DemoStates.
(** A world in which a handle is open when a request arrives. *)
Definition world_with_driver : @World unit nat :=
  with_drivers [5%nat] Demo.world0.

(** A request without the act type. *)
Definition request_incomplete : dict := [("date", "1990-01-01")].

(** The reference of the end-to-end example of the spec. *)
Definition reference : Identifier.ActReference :=
  Identifier.mkRef
    (Identifier.mkAct "statute" (Some "1990-01-01") (Some "9"))
    (Some "3") "current" None.

(** The same article in a version pinned to a date. *)
Definition reference_pinned : Identifier.ActReference :=
  Identifier.mkRef
    (Identifier.mkAct "statute" (Some "1990-01-01") (Some "9"))
    (Some "3") "original" (Some "1990-02-01").
End DemoStates.

(** ** Further notions used in the statements *)

(** The fields [create_norma_instance] reads with [data[...]], in the order
    in which it reads them. *)
Definition required_fields : list string :=
  ["act_type"; "date"; "act_number"; "article"; "version"].

(** The first of them a request lacks. *)
Definition first_missing (data : dict) : option string :=
  List.find (fun key => bool_decide (dict_get key data = None)) required_fields.

Definition is_extraction {Driver} (ev : @event Driver) : bool :=
  match ev with CallExtractHtmlArticle _ => true | _ => false end.

(** A cache within its capacity. *)
Definition within_capacity {K V} (c : TTL.TTLCache K V) : Prop :=
  (length (TTL.links c) <= TTL.maxsize c)%nat.

(** A cache as [app.py] sets it up, holding no more than it may. *)
Definition cache_inv {K V} (c : TTL.TTLCache K V) : Prop :=
  TTL.maxsize c = 100%nat /\ TTL.ttl c = 600 /\ within_capacity c.

(** The world of [create_norma] once the request line is logged. *)
Definition create_norma_received {Ext Driver} (w : @World Ext Driver)
  : @World Ext Driver :=
  with_trace (trace w ++ [Log INFO "Received data for create_norma: {data}"]) w.

(** A renderer that returns nothing. *)
Definition tools_empty_render : @Tools unit nat unit :=
  {| cwd := "/srv";
     get_urn := fun nv => Ok (default EmptyString (urn nv));
     to_dict := fun _ => Ok [];
     tree := fun _ => Ok tt;
     extract_html_article := fun _ e => (Ok "text", Demo.tick e);
     get_info := fun _ e => (Ok (mkBrocardi "1" "ratio" "href"), Demo.tick e);
     urn_to_filename := Demo.filename_of;
     new_driver := fun e => (Ok 1%nat, e);
     extract_pdf := fun _ _ e => (Ok EmptyString, Demo.tick e);
     url_for := fun f => "/download/" ++ f |}.

(** ** Sessions *)

(** A request to one of the routes of the module that has a handler of its
    own. *)
Inductive request : Type :=
  | CreateNorma (data : dict)
  | ExtractArticle (data : dict)
  | BrocardiInfo (data : dict)
  | GetHistory
  | ExportPdf (data : dict).

(** The routing table of the [@app.route] decorators. *)
Definition handle {Ext Driver Tree} (T : @Tools Ext Driver Tree)
  (rq : request) : M response :=
  match rq with
  | CreateNorma data => create_norma T data
  | ExtractArticle data => extract_article T data
  | BrocardiInfo data => brocardi_info T data
  | GetHistory => get_history T
  | ExportPdf data => export_pdf T data
  end.

Definition body (rq : request) : dict :=
  match rq with
  | CreateNorma data | ExtractArticle data | BrocardiInfo data
  | ExportPdf data => data
  | GetHistory => []
  end.

(** The body of a request is a JSON object with string fields: no field
    name occurs twice. *)
Definition well_formed (rq : request) : Prop := NoDup (body rq).*1.

(** Requests served one after the other.  Each comes with the environment
    it finds: between two requests the clock, the files and the remote
    sites may have changed in any way. *)
Fixpoint serve {Ext Driver Tree} (T : @Tools Ext Driver Tree)
  (session : list (@Env Ext * request)) (w : @World Ext Driver)
  : list (result response) * @World Ext Driver :=
  match session with
  | [] => ([], w)
  | (e, rq) :: session' =>
      let (r, w1) := handle T rq (with_env e w) in
      let (rs, w2) := serve T session' w1 in
      (r :: rs, w2)
  end.

(** The data of the reference a response of [create_norma] carries. *)
Definition resolved {Tree} (r : result (@response Tree)) : option dict :=
  match r with
  | Ok (JsonNorma norma_data _ _) => Some norma_data
  | _ => None
  end.

(** A resolution cache that is full: a hundred entries, none expired. *)
Module DemoFull.

Definition entry (n : nat) : TTL.link (list (string * string)) NormaVisitata :=
  TTL.Link [("act_number", String (ascii_of_nat (48 + n)) EmptyString)]
           (mkNormaVisitata (mkNorma "legge" None None None) None None None None)
           600.

Definition world : @World unit nat :=
  with_norma_cache (TTL.Cache 100 600 (entry <$> seq 0 100)) Demo.world0.

End DemoFull.

(** The line [create_norma] logs when it has appended to the history. *)
Definition is_appended {Driver} (ev : @event Driver) : bool :=
  match ev with
  | Log INFO msg =>
      bool_decide
        (msg = "Appended NormaVisitata to history. Current history size: {len(history)}")
  | _ => false
  end.

(** Collaborators for which the identifier of a reference cannot be
    derived. *)
Definition tools_no_urn : @Tools unit nat unit :=
  {| cwd := "/srv";
     get_urn := fun _ => Raise (ValueError "no identifier");
     to_dict := fun nv => Ok [("tipo_atto", tipo_atto (norma nv))];
     tree := fun _ => Ok tt;
     extract_html_article := fun _ e => (Ok "text", Demo.tick e);
     get_info := fun _ e => (Ok (mkBrocardi "1" "ratio" "href"), Demo.tick e);
     urn_to_filename := Demo.filename_of;
     new_driver := fun e => (Ok 1%nat, e);
     extract_pdf := fun _ _ e => (Ok EmptyString, Demo.tick e);
     url_for := fun f => "/download/" ++ f |}.


(** ** Proof tools *)

Arguments os_path_join : simpl never.
Arguments abspath : simpl never.
Arguments falsy : simpl never.
Arguments convert_to_hashable : simpl never.

Ltac unfold_M :=
  cbv beta iota delta
    [try_finally try_except bind ret raise emit logging_info logging_error
     call eval dict_getitem os_path_exists os_rename set_files setup_driver
     close_driver history_append] in *.

Ltac step_M := repeat (case_match; simplify_eq/=).

Ltac norm_trace := repeat rewrite <- app_assoc; simpl.

(** The trace has grown by some events. *)
Ltac trace_ext :=
  first [symmetry; apply app_nil_r | (simpl; norm_trace; reflexivity)].


(** * Properties *)

(** ** The cache *)

Section CacheFacts.
Context {K V : Type} `{EqDecision K}.
Implicit Types (c : TTL.TTLCache K V) (ls : list (TTL.link K V)) (k : K).

Lemma find_link_Some k ls l :
  TTL.find_link k ls = Some l -> TTL.lk_key l = k /\ In l ls.
Proof.
  unfold TTL.find_link. intros Hf. apply find_some in Hf as [Hin Hk].
  unfold TTL.has_key in Hk. apply bool_decide_eq_true in Hk. auto.
Qed.

Lemma find_link_None k ls :
  TTL.find_link k ls = None <-> (forall l, In l ls -> TTL.lk_key l <> k).
Proof.
  unfold TTL.find_link. split.
  - intros Hf l Hin Hk. pose proof (find_none _ _ Hf l Hin) as Hn.
    unfold TTL.has_key in Hn. apply bool_decide_eq_false in Hn. auto.
  - intros Hall. induction ls as [|x ls IH]; simpl; [done|].
    unfold TTL.has_key at 1. rewrite bool_decide_eq_false_2.
    + apply IH. intros l Hl. apply Hall. by right.
    + apply Hall. by left.
Qed.

Lemma find_link_app k ls1 ls2 :
  TTL.find_link k (ls1 ++ ls2) =
  match TTL.find_link k ls1 with
  | Some l => Some l
  | None => TTL.find_link k ls2
  end.
Proof.
  unfold TTL.find_link. induction ls1 as [|x ls1 IH]; simpl; [done|].
  by destruct (TTL.has_key k x).
Qed.

Lemma find_link_filter_same k ls :
  TTL.find_link k (List.filter (TTL.other_key k) ls) = None.
Proof.
  apply find_link_None. intros l Hin Hk. apply filter_In in Hin as [_ Ho].
  unfold TTL.other_key, TTL.has_key in Ho.
  by rewrite bool_decide_eq_true_2 in Ho.
Qed.

Lemma find_link_filter_other k k' ls :
  k <> k' ->
  TTL.find_link k' (List.filter (TTL.other_key k) ls) = TTL.find_link k' ls.
Proof.
  intros Hne. unfold TTL.find_link, TTL.other_key, TTL.has_key.
  induction ls as [|x ls IH]; simpl; [done|].
  destruct (decide (TTL.lk_key x = k)) as [Hx|Hx].
  - rewrite (bool_decide_eq_true_2 _ Hx). simpl.
    rewrite bool_decide_eq_false_2 by congruence. exact IH.
  - rewrite (bool_decide_eq_false_2 _ Hx). simpl. by rewrite IH.
Qed.

Lemma find_link_single k (l : TTL.link K V) :
  TTL.find_link k [l] = if decide (TTL.lk_key l = k) then Some l else None.
Proof.
  unfold TTL.find_link, TTL.has_key. simpl.
  destruct (decide (TTL.lk_key l = k)) as [Hx|Hx].
  - by rewrite bool_decide_eq_true_2.
  - by rewrite bool_decide_eq_false_2.
Qed.

(** Moving a link to the end changes no lookup. *)
Lemma find_link_move_to_end k k' ls :
  TTL.find_link k' (TTL.move_to_end k ls) = TTL.find_link k' ls.
Proof.
  unfold TTL.move_to_end.
  destruct (TTL.find_link k ls) as [l|] eqn:Hf; [|done].
  destruct (find_link_Some _ _ _ Hf) as [Hk _].
  rewrite find_link_app, find_link_single.
  destruct (decide (k = k')) as [->|Hne].
  - rewrite find_link_filter_same. by rewrite decide_True.
  - rewrite find_link_filter_other by done.
    destruct (TTL.find_link k' ls); [done|].
    rewrite decide_False; [done|congruence].
Qed.

Lemma In_move_to_end k ls l : In l (TTL.move_to_end k ls) -> In l ls.
Proof.
  unfold TTL.move_to_end.
  destruct (TTL.find_link k ls) as [l'|] eqn:Hf; [|done].
  intros [Hin|Hin]%in_app_or.
  - by apply filter_In in Hin as [? _].
  - destruct Hin as [<-|[]]. by apply find_link_Some in Hf as [_ ?].
Qed.

Lemma getitem_fst now k c : fst (TTL.getitem now k c) = TTL.live now k c.
Proof.
  unfold TTL.getitem, TTL.live.
  destruct (TTL.find_link k (TTL.links c)); [|done].
  by destruct (bool_decide _).
Qed.

Lemma getitem_links now k c :
  TTL.links (snd (TTL.getitem now k c)) = TTL.move_to_end k (TTL.links c).
Proof.
  unfold TTL.getitem.
  destruct (TTL.find_link k (TTL.links c)) eqn:Hf.
  - by destruct (bool_decide _).
  - unfold TTL.move_to_end. by rewrite Hf.
Qed.

Lemma getitem_maxsize now k c :
  TTL.maxsize (snd (TTL.getitem now k c)) = TTL.maxsize c.
Proof.
  unfold TTL.getitem. destruct (TTL.find_link _ _); [|done].
  by destruct (bool_decide _).
Qed.

Lemma getitem_ttl now k c : TTL.ttl (snd (TTL.getitem now k c)) = TTL.ttl c.
Proof.
  unfold TTL.getitem. destruct (TTL.find_link _ _); [|done].
  by destruct (bool_decide _).
Qed.

Lemma setitem_maxsize now k v c :
  TTL.maxsize (TTL.setitem now k v c) = TTL.maxsize c.
Proof. unfold TTL.setitem. by destruct (bool_decide _). Qed.

Lemma setitem_ttl now k v c : TTL.ttl (TTL.setitem now k v c) = TTL.ttl c.
Proof. unfold TTL.setitem. by destruct (bool_decide _). Qed.

(** A lookup reorders the links and nothing else: what is live stays live,
    for every key and at every time. *)
Lemma live_getitem now k c t k' :
  TTL.live t k' (snd (TTL.getitem now k c)) = TTL.live t k' c.
Proof.
  unfold TTL.live. by rewrite getitem_links, find_link_move_to_end.
Qed.

(** The link a store leaves for its key. *)
Lemma find_link_setitem now k v c :
  (1 <= TTL.maxsize c)%nat ->
  TTL.find_link k (TTL.links (TTL.setitem now k v c)) =
  Some (TTL.Link k v (now + TTL.ttl c)).
Proof.
  intros Hm. unfold TTL.setitem.
  rewrite bool_decide_eq_false_2 by lia. simpl.
  rewrite find_link_app, find_link_filter_same, find_link_single.
  by rewrite decide_True.
Qed.

Lemma live_setitem now k v c t :
  (1 <= TTL.maxsize c)%nat ->
  TTL.live t k (TTL.setitem now k v c) =
  if bool_decide (t < now + TTL.ttl c) then Some v else None.
Proof.
  intros Hm. unfold TTL.live. by rewrite find_link_setitem.
Qed.


Lemma expires_by_setitem now k v c :
  (1 <= TTL.maxsize c)%nat ->
  expires_by k (now + TTL.ttl c) (TTL.setitem now k v c).
Proof.
  intros Hm l. unfold TTL.setitem.
  rewrite bool_decide_eq_false_2 by lia. simpl.
  intros [Hin|Hin]%in_app_or Hk.
  - apply filter_In in Hin as [_ Ho].
    unfold TTL.other_key, TTL.has_key in Ho.
    by rewrite bool_decide_eq_true_2 in Ho.
  - destruct Hin as [<-|[]]. simpl. lia.
Qed.

Lemma expires_by_getitem now k' k B c :
  expires_by k B c -> expires_by k B (snd (TTL.getitem now k' c)).
Proof.
  intros Hb l. rewrite getitem_links. intros Hin. apply Hb.
  by apply In_move_to_end in Hin.
Qed.

Lemma expires_by_setitem_other now k' v k B c :
  k' <> k -> expires_by k B c -> expires_by k B (TTL.setitem now k' v c).
Proof.
  intros Hne Hb l. unfold TTL.setitem.
  destruct (bool_decide (TTL.maxsize c < 1)%nat); simpl.
  { unfold TTL.expire. intros [Hin _]%filter_In. by apply Hb. }
  intros [Hin|Hin]%in_app_or Hk.
  - apply filter_In in Hin as [Hin _]. apply Hb; [|done].
    assert (In l (TTL.expire now (TTL.links c))) as Hin'.
    { destruct (TTL.find_link k' _); [done|].
      apply list_elem_of_In. apply list_elem_of_In in Hin.
      eapply (subseteq_drop _ _ _ Hin). }
    unfold TTL.expire in Hin'. by apply filter_In in Hin' as [? _].
  - destruct Hin as [<-|[]]. simpl in Hk. congruence.
Qed.

Lemma expires_by_dead k B c t :
  expires_by k B c -> B <= t -> TTL.live t k c = None.
Proof.
  intros Hb Hle. unfold TTL.live.
  destruct (TTL.find_link k (TTL.links c)) as [l|] eqn:Hf; [|done].
  apply find_link_Some in Hf as [Hk Hin].
  pose proof (Hb l Hin Hk). rewrite bool_decide_eq_false_2; [done|lia].
Qed.

Lemma run_ops_maxsize (ops : list (cache_op K V)) c :
  TTL.maxsize (run_ops ops c) = TTL.maxsize c.
Proof.
  revert c. induction ops as [|o ops IH]; intros c; [done|].
  unfold run_ops in *. simpl. rewrite IH.
  destruct o; simpl; [apply getitem_maxsize|apply setitem_maxsize].
Qed.

Lemma run_ops_ttl (ops : list (cache_op K V)) c :
  TTL.ttl (run_ops ops c) = TTL.ttl c.
Proof.
  revert c. induction ops as [|o ops IH]; intros c; [done|].
  unfold run_ops in *. simpl. rewrite IH.
  destruct o; simpl; [apply getitem_ttl|apply setitem_ttl].
Qed.

Lemma expires_by_run_ops k B (ops : list (cache_op K V)) c :
  forallb (fun o => negb (sets_key k o)) ops = true ->
  expires_by k B c -> expires_by k B (run_ops ops c).
Proof.
  revert c. induction ops as [|o ops IH]; intros c Hops Hb; [done|].
  simpl in Hops. apply andb_true_iff in Hops as [Ho Hops].
  unfold run_ops in *. simpl. apply IH; [done|].
  destruct o as [now k'|now k' v]; simpl.
  - by apply expires_by_getitem.
  - apply expires_by_setitem_other; [|done].
    simpl in Ho. apply negb_true_iff, bool_decide_eq_false in Ho. done.
Qed.

End CacheFacts.

(** ** The wrapper *)

Section WrapperFacts.
Context {Ext Driver : Type} {K V : Type} `{EqDecision K}.
Implicit Types (L : @lens Ext Driver K V) (k : K) (w : @World Ext Driver).

Lemma norma_cache_lens_ok : lens_ok (@norma_cache_lens Ext Driver).
Proof. by split. Qed.
Lemma article_cache_lens_ok : lens_ok (@article_cache_lens Ext Driver).
Proof. by split. Qed.
Lemma brocardi_cache_lens_ok : lens_ok (@brocardi_cache_lens Ext Driver).
Proof. by split. Qed.

Lemma lookup_step_eq L k w :
  lookup_step L k w = (Ok (TTL.live (clock (env w)) k (view L w)), after_lookup L k w).
Proof.
  unfold lookup_step, after_lookup.
  rewrite <- getitem_fst. by destruct (TTL.getitem _ _ _).
Qed.

Lemma cached_hit L k (func : M V) w v :
  TTL.live (clock (env w)) k (view L w) = Some v ->
  cached L k func w = (Ok v, after_lookup L k w).
Proof.
  intros Hl. unfold cached, bind. by rewrite lookup_step_eq, Hl.
Qed.

Lemma cached_miss L k (func : M V) w :
  TTL.live (clock (env w)) k (view L w) = None ->
  cached L k func w = compute_and_store L k func (after_lookup L k w).
Proof.
  intros Hl. unfold cached, compute_and_store, bind at 1.
  by rewrite lookup_step_eq, Hl.
Qed.

Lemma live_after_lookup L k w t k' :
  lens_ok L ->
  TTL.live t k' (view L (after_lookup L k w)) = TTL.live t k' (view L w).
Proof.
  intros HL. unfold after_lookup. rewrite (view_over L HL). apply live_getitem.
Qed.

Lemma env_after_lookup L k w : lens_ok L -> env (after_lookup L k w) = env w.
Proof. intros HL. unfold after_lookup. apply (env_over L HL). Qed.

End WrapperFacts.

(** C8.  An entry inserted at time [T] is not returned by a lookup at any
    time [t >= T + ttl]: whatever lookups (of this or other keys, at any
    time) and stores of other keys happen in between, the lookup misses, so
    the age counts from the insertion and not from the last access; and the
    wrapper then calls the function again and stores the new value. *)
Theorem C8_expired_entry_not_returned
  {K V : Type} `{EqDecision K} (c : TTL.TTLCache K V) (k : K) (v : V) (T t : Z)
  (ops : list (cache_op K V)) :
  (1 <= TTL.maxsize c)%nat ->
  forallb (fun o => negb (sets_key k o)) ops = true ->
  T + TTL.ttl c <= t ->
  let c' := run_ops ops (TTL.setitem T k v c) in
  fst (TTL.getitem t k c') = None /\
  forall (Ext Driver : Type) (L : @lens Ext Driver K V) (func : M V) (w : World),
    view L w = c' -> clock (env w) = t ->
    cached L k func w = compute_and_store L k func (after_lookup L k w).
Proof.
  intros Hm Hops Ht c'.
  assert (TTL.live t k c' = None) as Hdead.
  { apply (expires_by_dead k (T + TTL.ttl c)); [|done].
    apply expires_by_run_ops; [done|]. by apply expires_by_setitem. }
  split.
  - by rewrite getitem_fst.
  - intros Ext Driver L func w Hv Hc. apply cached_miss. by rewrite Hv, Hc.
Qed.


(** ** [export_pdf] and the driver *)

Lemma new_events_app {Ext Driver} (w w' : @World Ext Driver) evs :
  trace w' = (trace w ++ evs)%list -> new_events w w' = evs.
Proof. unfold new_events. intros ->. by rewrite drop_app_length. Qed.

Section ExportFacts.
Context {Ext Driver Tree : Type} (T : @Tools Ext Driver Tree).
Implicit Types (w : @World Ext Driver) (data : dict).

(** Every run of [export_pdf] returns a response, empties the driver slot
    and calls [close_driver] once. *)
Lemma export_pdf_outcome data w :
  exists r w' evs,
    export_pdf T data w = (Ok r, w') /\
    drivers w' = [] /\
    trace w' = (trace w ++ evs)%list /\
    length (List.filter is_release evs) = 1%nat.
Proof.
  unfold export_pdf. unfold_M. step_M;
    do 3 eexists; (split; [reflexivity|]); simpl;
    (split; [reflexivity|]); norm_trace; (split; [reflexivity|]); reflexivity.
Qed.

(** A successful export is one of a well-formed request. *)
Lemma export_pdf_success_inv data w u w1 :
  export_pdf T data w = (Ok (JsonPdfUrl u), w1) ->
  exists urn,
    dict_get "urn" data = Some urn /\
    falsy (urn_to_filename T urn) = false /\
    u = url_for T (urn_to_filename T urn).
Proof.
  unfold export_pdf. unfold_M. intros Hrun. step_M; eauto.
Qed.

(** With the file in place neither the driver nor the renderer is touched. *)
Lemma export_pdf_existing data w urn :
  dict_get "urn" data = Some urn ->
  falsy (urn_to_filename T urn) = false ->
  derived_path T urn ∈ files (env w) ->
  exists w',
    export_pdf T data w = (Ok (JsonPdfUrl (url_for T (urn_to_filename T urn))), w') /\
    env w' = env w /\
    trace w' = (trace w ++ [Log INFO "Received data for export_pdf: {urn}";
                            Log INFO "PDF {filename} path: {pdf_path}"; CallCloseDriver;
                            Log INFO "Driver closed"])%list.
Proof.
  intros Hurn Hname Hfile. unfold derived_path in Hfile.
  unfold export_pdf. unfold_M. rewrite Hurn. simpl. rewrite Hname. simpl.
  rewrite bool_decide_eq_true_2 by done. simpl.
  eexists. split; [reflexivity|]. simpl. split; [done|]. by norm_trace.
Qed.

(** Starting with an empty slot, a render is preceded by a set-up. *)
Lemma export_pdf_render_needs_setup data w :
  drivers w = [] ->
  let w' := snd (export_pdf T data w) in
  existsb is_render (new_events w w') = true ->
  existsb is_setup (new_events w w') = true.
Proof.
  intros Hd. unfold export_pdf. unfold_M.
  step_M; try congruence;
    match goal with
    | |- context [new_events ?a ?b] =>
        erewrite (new_events_app a b) by (simpl; norm_trace; reflexivity)
    end; simpl; done.
Qed.

(** Starting with a filled slot, the render uses its first handle and no
    handle is created. *)
Lemma export_pdf_reuse data w urn d ds :
  drivers w = d :: ds ->
  dict_get "urn" data = Some urn ->
  falsy (urn_to_filename T urn) = false ->
  derived_path T urn ∉ files (env w) ->
  let w' := snd (export_pdf T data w) in
  In (CallExtractPdf d urn) (new_events w w') /\
  existsb is_setup (new_events w w') = false.
Proof.
  intros Hd Hurn Hname Hfile. unfold derived_path in Hfile.
  unfold export_pdf. unfold_M. rewrite Hurn. simpl. rewrite Hname. simpl.
  rewrite bool_decide_eq_false_2 by done. simpl.
  step_M; try congruence;
    match goal with
    | |- context [new_events ?a ?b] =>
        erewrite (new_events_app a b) by (simpl; norm_trace; reflexivity)
    end; simpl; split; auto.
Qed.

End ExportFacts.

(** C5.  Every [export_pdf] request releases the driver on every exit path:
    whatever the request and the state, and whether the render or any step
    before or after it fails, the handler returns a response, [close_driver]
    has been called exactly once during the request, and afterwards the
    driver slot is empty. *)
Theorem C5_release_on_every_exit {Ext Driver Tree : Type}
  (T : @Tools Ext Driver Tree) (data : dict) (w : World) :
  exists r w',
    export_pdf T data w = (Ok r, w') /\
    length (List.filter is_release (new_events w w')) = 1%nat /\
    drivers w' = [].
Proof.
  destruct (export_pdf_outcome T data w) as (r & w' & evs & Hrun & Hd & Htr & Hn).
  exists r, w'. by rewrite (new_events_app _ _ _ Htr).
Qed.

(** C6, as stated, fails: no two consecutive exports are such that the
    second finds the handle of the first in the slot. *)
Lemma C6_no_reuse_between_exports :
  ~ exists (Ext Driver Tree : Type) (T : @Tools Ext Driver Tree)
      (w : World) (data1 data2 : dict), handle_reused T w data1 data2.
Proof.
  intros (Ext & Driver & Tree & T & w & data1 & data2 & Hre).
  unfold handle_reused in Hre.
  destruct (export_pdf_outcome T data1 w) as (r & w' & evs & Hrun & Hd & _).
  rewrite Hrun in Hre. destruct (export_pdf T data2 w') as [r2 w2].
  destruct Hre as (_ & _ & _ & Hne & _). done.
Qed.

(** C6, amended.  The handle does not outlive an export: after every export
    the slot is empty, so a following export that renders sets up a handle of
    its own.  A handle is reused only when the slot is already filled when
    the export starts: then the render uses the first handle of the slot and
    none is created. *)
Theorem C6_handle_reused_only_if_slot_filled {Ext Driver Tree : Type}
  (T : @Tools Ext Driver Tree) (w : World) (data1 data2 : dict) :
  let w1 := snd (export_pdf T data1 w) in
  let w2 := snd (export_pdf T data2 w1) in
  drivers w1 = [] /\
  (existsb is_render (new_events w1 w2) = true ->
   existsb is_setup (new_events w1 w2) = true) /\
  (forall (w0 : World) (data : dict) (urn : string) (d : Driver) (ds : list Driver),
     drivers w0 = d :: ds ->
     dict_get "urn" data = Some urn ->
     falsy (urn_to_filename T urn) = false ->
     derived_path T urn ∉ files (env w0) ->
     let w' := snd (export_pdf T data w0) in
     In (CallExtractPdf d urn) (new_events w0 w') /\
     existsb is_setup (new_events w0 w') = false).
Proof.
  intros w1 w2.
  assert (drivers w1 = []) as Hd.
  { destruct (export_pdf_outcome T data1 w) as (r & w' & evs & Hrun & Hd & _).
    unfold w1. by rewrite Hrun. }
  split; [done|]. split.
  - by apply export_pdf_render_needs_setup.
  - intros w0 data urn d ds. apply export_pdf_reuse.
Qed.

(** C7, as stated, fails, in two ways.  With a renderer that fails, the
    first export reports the error and the second one calls the renderer
    again.  With a renderer that returns the bare name of the file it stored
    in the download directory, [os.rename] moves the file from the download
    directory to the working directory, both exports succeed, and the second
    one renders again. *)
Lemma C7_second_export_renders_again :
  ~ idempotent_export Demo.tools_failing /\
  ~ idempotent_export Demo.tools_relative.
Proof.
  split; intros Hid.
  - destruct (Hid Demo.world0 Demo.request_urn) as [Hle _].
    vm_compute in Hle. lia.
  - destruct (Hid Demo.world0 Demo.request_urn) as [_ Hsame].
    destruct (Hsame "/download/urn:nir:stato:costituzione.pdf") as [_ Hno].
    + vm_compute. reflexivity.
    + vm_compute in Hno. discriminate.
Qed.

(** C7, amended.  An export that finds a file at the path derived from the
    identifier does not render: if, after a successful export, the file is at
    the derived path, then exporting the same identifier again returns the
    same location, calls neither the driver set-up nor the renderer, and
    leaves the environment as it is. *)
Theorem C7_export_reuses_existing_file {Ext Driver Tree : Type}
  (T : @Tools Ext Driver Tree) (w w1 : World) (data : dict) (u urn : string) :
  export_pdf T data w = (Ok (JsonPdfUrl u), w1) ->
  dict_get "urn" data = Some urn ->
  derived_path T urn ∈ files (env w1) ->
  exists w2,
    export_pdf T data w1 = (Ok (JsonPdfUrl u), w2) /\
    existsb is_render (new_events w1 w2) = false /\
    existsb is_setup (new_events w1 w2) = false /\
    env w2 = env w1.
Proof.
  intros Hfirst Hurn Hfile.
  destruct (export_pdf_success_inv T data w u w1 Hfirst)
    as (urn' & Hurn' & Hname & ->).
  assert (urn' = urn) as -> by congruence.
  destruct (export_pdf_existing T data w1 urn Hurn Hname Hfile)
    as (w2 & Hrun & Henv & Htr).
  exists w2. rewrite (new_events_app _ _ _ Htr). by repeat split.
Qed.

(** C7 at work: with a renderer that stores the file at the derived path,
    the second export of an identifier does not render. *)
Lemma C7_export_reuses_existing_file_witness :
  exists w2,
    export_pdf Demo.tools Demo.request_urn
      (snd (export_pdf Demo.tools Demo.request_urn Demo.world0)) =
      (Ok (JsonPdfUrl "/download/urn:nir:stato:costituzione.pdf"), w2) /\
    existsb is_render
      (new_events (snd (export_pdf Demo.tools Demo.request_urn Demo.world0)) w2)
      = false.
Proof.
  destruct (C7_export_reuses_existing_file Demo.tools Demo.world0
              (snd (export_pdf Demo.tools Demo.request_urn Demo.world0))
              Demo.request_urn
              "/download/urn:nir:stato:costituzione.pdf"
              "urn:nir:stato:costituzione")
    as (w2 & Hrun & Hren & _).
  - vm_compute. reflexivity.
  - reflexivity.
  - eapply (bool_decide_unpack _). vm_compute. exact I.
  - exists w2. split; assumption.
Defined.

(** ** The cached functions *)

Section CachedFacts.
Context {Ext Driver : Type} {K V : Type} `{EqDecision K}.
Implicit Types (L : @lens Ext Driver K V) (k : K) (w : @World Ext Driver).

(** A call of the wrapper that returns leaves a live entry with the value
    returned. *)
Lemma cached_entry L k (func : M V) w v w' :
  lens_ok L -> leaves_cache L func ->
  (1 <= TTL.maxsize (view L w))%nat -> 0 < TTL.ttl (view L w) ->
  cached L k func w = (Ok v, w') ->
  exists expires,
    TTL.find_link k (TTL.links (view L w')) = Some (TTL.Link k v expires) /\
    clock (env w') < expires.
Proof.
  intros HL Hleave Hm Httl Hrun.
  destruct (TTL.live (clock (env w)) k (view L w)) as [v0|] eqn:Hlive.
  - rewrite (cached_hit _ _ _ _ _ Hlive) in Hrun. simplify_eq.
    unfold TTL.live in Hlive.
    destruct (TTL.find_link k (TTL.links (view L w))) as [l|] eqn:Hf; [|done].
    destruct (bool_decide (clock (env w) < TTL.lk_expires l)) eqn:Hb; [|done].
    apply bool_decide_eq_true in Hb. simplify_eq.
    exists (TTL.lk_expires l). rewrite env_after_lookup by done.
    split; [|done]. unfold after_lookup.
    rewrite (view_over L HL), getitem_links, find_link_move_to_end, Hf.
    apply find_link_Some in Hf as [<- _]. by destruct l.
  - rewrite (cached_miss _ _ _ _ Hlive) in Hrun.
    unfold compute_and_store, bind in Hrun.
    pose proof (Hleave (after_lookup L k w)) as Hsame.
    destruct (func (after_lookup L k w)) as [[v1|e1] w1]; [|done].
    unfold store_step in Hrun. simplify_eq. simpl in Hsame.
    assert (TTL.maxsize (view L w1) = TTL.maxsize (view L w) /\
            TTL.ttl (view L w1) = TTL.ttl (view L w)) as [Hm1 Ht1].
    { rewrite Hsame. unfold after_lookup. rewrite (view_over L HL).
      by rewrite getitem_maxsize, getitem_ttl. }
    exists (clock (env w1) + TTL.ttl (view L w1)).
    rewrite (view_over L HL), (env_over L HL).
    rewrite find_link_setitem by lia. split; [done|lia].
Qed.

(** While that entry is live, a call is answered from the cache: the
    function does not run. *)
Lemma cached_live_entry L k (func : M V) w v expires :
  TTL.find_link k (TTL.links (view L w)) = Some (TTL.Link k v expires) ->
  clock (env w) < expires ->
  cached L k func w = (Ok v, after_lookup L k w).
Proof.
  intros Hf Hlt. apply cached_hit. unfold TTL.live. rewrite Hf. simpl.
  by rewrite bool_decide_eq_true_2.
Qed.

End CachedFacts.

Section HandlerFacts.
Context {Ext Driver Tree : Type} (T : @Tools Ext Driver Tree).
Implicit Types (w : @World Ext Driver) (data : dict).

Lemma extract_article_text_leaves_cache nrm article :
  leaves_cache article_cache_lens (extract_article_text__wrapped T nrm article).
Proof.
  intros w. unfold extract_article_text__wrapped. unfold_M. by step_M.
Qed.

Lemma create_norma_instance_leaves_cache data :
  leaves_cache norma_cache_lens (@create_norma_instance__wrapped Ext Driver data).
Proof.
  intros w. unfold create_norma_instance__wrapped. unfold_M. by step_M.
Qed.

Lemma get_brocardi_information_leaves_cache u :
  leaves_cache brocardi_cache_lens (get_brocardi_information__wrapped T u).
Proof.
  intros w. unfold get_brocardi_information__wrapped. unfold_M. by step_M.
Qed.

End HandlerFacts.

(** C4.  The article-text cache answers a repeated lookup: when a request
    for an identifier and an article has returned a text, the cache holds
    that text under the key made of the act rebuilt from the identifier and
    the article, and as long as that entry has not expired a second request
    with the same identifier and article returns the same text without
    running the extraction: its only event is the line logged on receipt. *)
Theorem C4_article_text_cache_hit {Ext Driver Tree : Type}
  (T : @Tools Ext Driver Tree) (w w1 : World) (data1 data2 : dict) (text : string) :
  configured w ->
  dict_get "urn" data1 = dict_get "urn" data2 ->
  dict_get "article" data1 = dict_get "article" data2 ->
  extract_article T data1 w = (Ok (JsonResult text), w1) ->
  exists (u article : string) (expires : Z),
    dict_get "urn" data1 = Some u /\
    dict_get "article" data1 = Some article /\
    TTL.find_link (mkNorma "costituzione" None None (Some u), article)
                  (TTL.links (article_cache w1))
      = Some (TTL.Link (mkNorma "costituzione" None None (Some u), article)
                       text expires) /\
    clock (env w1) < expires /\
    forall e' : Env,
      clock e' < expires ->
      exists w2,
        extract_article T data2 (with_env e' w1) = (Ok (JsonResult text), w2) /\
        env w2 = e' /\
        new_events (with_env e' w1) w2 =
          [Log INFO "Received data for extract_article: {data}"].
Proof.
  intros Hconf Hurn Hart Hrun.
  destruct Hconf as (_ & _ & Hmax & Httl & _).
  unfold extract_article in Hrun. unfold_M.
  destruct (dict_get "urn" data1) as [u|] eqn:Hu; [|by simplify_eq/=].
  destruct (dict_get "article" data1) as [article|] eqn:Ha; [|by simplify_eq/=].
  simpl in Hrun. unfold extract_article_text in Hrun.
  match type of Hrun with
  | context [cached ?L ?k ?f ?w0] =>
      destruct (cached L k f w0) as [[v|e] w'] eqn:Hc; [|by simplify_eq/=];
      destruct (cached_entry L k f w0 v w') as (expires & Hf & Hlt);
        [apply article_cache_lens_ok
        |apply extract_article_text_leaves_cache
        |simpl; lia | simpl; lia | exact Hc |]
  end.
  simplify_eq/=. exists u, article, expires. repeat split; try done.
  intros e' He'. unfold extract_article. unfold_M.
  rewrite <- Hurn, <- Hart. simpl. unfold extract_article_text.
  erewrite cached_live_entry; [|exact Hf|exact He'].
  eexists. split; [reflexivity|]. split; [done|].
  by apply new_events_app.
Qed.

(** C4 at work: the same article requested twice, the fields of the second
    request in another order. *)
Lemma C4_article_text_cache_hit_witness :
  exists (u article : string) (expires : Z),
    dict_get "urn" Demo.request_article = Some u /\
    dict_get "article" Demo.request_article = Some article /\
    forall e' : Env,
      clock e' < expires ->
      exists w2,
        extract_article Demo.tools Demo.request_article_permuted
          (with_env e'
             (snd (extract_article Demo.tools Demo.request_article Demo.world0)))
        = (Ok (JsonResult "text"), w2) /\
        env w2 = e'.
Proof.
  destruct (C4_article_text_cache_hit Demo.tools Demo.world0
              (snd (extract_article Demo.tools Demo.request_article Demo.world0))
              Demo.request_article Demo.request_article_permuted "text")
    as (u & article & expires & Hu & Ha & _ & _ & Hhit).
  - repeat split; reflexivity.
  - reflexivity.
  - reflexivity.
  - vm_compute. reflexivity.
  - exists u, article, expires. split; [exact Hu|]. split; [exact Ha|].
    intros e' He'. destruct (Hhit e' He') as (w2 & Hrun & Henv & _).
    exists w2. split; assumption.
Defined.

(** Every extraction [extract_article] asks for is for the act rebuilt from
    the identifier of the request. *)
Lemma extract_article_calls {Ext Driver Tree : Type}
  (T : @Tools Ext Driver Tree) (data : dict) (w : World) nv :
  In (CallExtractHtmlArticle nv)
     (new_events w (snd (extract_article T data w))) ->
  exists u a,
    dict_get "urn" data = Some u /\ dict_get "article" data = Some a /\
    nv = mkNormaVisitata (mkNorma "costituzione" None None (Some u))
                         (Some a) None None (Some u).
Proof.
  unfold extract_article, extract_article_text, cached, lookup_step,
    store_step, extract_article_text__wrapped. unfold_M.
  step_M;
    match goal with
    | |- context [new_events ?a ?b] =>
        erewrite (new_events_app a b) by (simpl; norm_trace; reflexivity)
    end; simpl; intros Hin; intuition (simplify_eq/=; eauto).
Qed.

(** Every scrape [brocardi_info] asks for is for the act rebuilt from the
    identifier of the request. *)
Lemma brocardi_info_calls {Ext Driver Tree : Type}
  (T : @Tools Ext Driver Tree) (data : dict) (w : World) nv :
  In (CallGetInfo nv) (new_events w (snd (brocardi_info T data w))) ->
  exists u,
    dict_get "urn" data = Some u /\
    nv = mkNormaVisitata (mkNorma "costituzione" None None (Some u))
                         None None None (Some u).
Proof.
  unfold brocardi_info, get_brocardi_information, cached, lookup_step,
    store_step, get_brocardi_information__wrapped. unfold_M.
  step_M;
    match goal with
    | |- context [new_events ?a ?b] =>
        erewrite (new_events_app a b) by (simpl; norm_trace; reflexivity)
    end; simpl; intros Hin; intuition (simplify_eq/=; eauto).
Qed.

(** C10.  The act rebuilt from the identifier of a request always has the
    type "costituzione", whatever the identifier is: for a request with the
    identifier [urn], the act is [Norma(tipo_atto="costituzione", url=urn)].
    In [extract_article] this act is, with the article, the key of the cache:
    a request that returns a text leaves the text under that key, whether it
    was found there, extracted, or the article is empty; every extraction the
    request asks for is for exactly this act, and there is one whenever the
    cache has no live entry under the key and the article is not empty.  In
    [brocardi_info] every scrape the request asks for is for exactly this
    act, and there is one whenever the cache has no live entry for the
    identifier. *)
Theorem C10_act_type_fixed {Ext Driver Tree : Type}
  (T : @Tools Ext Driver Tree) (data : dict) (w : World) (u : string) :
  dict_get "urn" data = Some u ->
  let act := mkNorma "costituzione" None None (Some u) in
  tipo_atto act = "costituzione" /\
  (forall a : string,
     dict_get "article" data = Some a ->
     let w' := snd (extract_article T data w) in
     let nv := mkNormaVisitata act (Some a) None None (Some u) in
     (forall text : string,
        configured w ->
        fst (extract_article T data w) = Ok (JsonResult text) ->
        exists expires : Z,
          TTL.find_link (act, a) (TTL.links (article_cache w'))
            = Some (TTL.Link (act, a) text expires)) /\
     (forall nv', In (CallExtractHtmlArticle nv') (new_events w w') ->
                  nv' = nv) /\
     (TTL.live (clock (env w)) (act, a) (article_cache w) = None ->
      falsy a = false ->
      In (CallExtractHtmlArticle nv) (new_events w w'))) /\
  (let w' := snd (brocardi_info T data w) in
   let nv := mkNormaVisitata act None None None (Some u) in
   (forall nv', In (CallGetInfo nv') (new_events w w') -> nv' = nv) /\
   (TTL.live (clock (env w)) u (brocardi_cache w) = None ->
    In (CallGetInfo nv) (new_events w w'))).
Proof.
  intros Hu act. split; [done|]. split.
  - intros a Ha w' nv. split; [|split].
    + intros text (_ & _ & Hmax & Httl & _) Hrun. unfold w'.
      destruct (extract_article T data w) as [r w1] eqn:Hrun'.
      simpl in Hrun. subst r.
      unfold extract_article in Hrun'. unfold_M.
      rewrite Hu, Ha in Hrun'. simpl in Hrun'.
      unfold extract_article_text in Hrun'.
      match type of Hrun' with
      | context [cached ?L ?k ?f ?w0] =>
          destruct (cached L k f w0) as [[v|e] w2] eqn:Hc; [|by simplify_eq/=];
          destruct (cached_entry L k f w0 v w2) as (expires & Hf & _);
            [apply article_cache_lens_ok
            |apply extract_article_text_leaves_cache
            |simpl; lia | simpl; lia | exact Hc |]
      end.
      simplify_eq/=. by exists expires.
    + intros nv' Hin.
      destruct (extract_article_calls T data w nv' Hin)
        as (u' & a' & Hu' & Ha' & ->).
      unfold nv, act. congruence.
    + intros Hlive Hfalsy. unfold w', extract_article. unfold_M.
      rewrite Hu, Ha. simpl. unfold extract_article_text.
      rewrite cached_miss by exact Hlive.
      unfold compute_and_store, after_lookup, extract_article_text__wrapped,
        store_step. unfold_M. rewrite Hfalsy. simpl.
      destruct (extract_html_article T _ _) as [[t|e] e'];
        simpl; erewrite new_events_app by (simpl; norm_trace; reflexivity);
        simpl; tauto.
  - intros w' nv. split.
    + intros nv' Hin.
      destruct (brocardi_info_calls T data w nv' Hin) as (u' & Hu' & ->).
      unfold nv, act. congruence.
    + intros Hlive. unfold w', brocardi_info. unfold_M.
      rewrite Hu. simpl. unfold get_brocardi_information.
      rewrite cached_miss by exact Hlive.
      unfold compute_and_store, after_lookup,
        get_brocardi_information__wrapped, store_step. unfold_M. simpl.
      destruct (get_info T _ _) as [[t|e] e'];
        simpl; erewrite new_events_app by (simpl; norm_trace; reflexivity);
        simpl; tauto.
Qed.

(** C10 at work: the identifier of a statute.  The article is extracted,
    and the commentary scraped, for an act of type "costituzione". *)
Lemma C10_act_type_fixed_witness :
  let u := "urn:nir:stato:legge:1990-01-01;9" in
  let data := [("urn", u); ("article", "3")] in
  let act := mkNorma "costituzione" None None (Some u) in
  In (CallExtractHtmlArticle
        (mkNormaVisitata act (Some "3") None None (Some u)))
     (new_events Demo.world0 (snd (extract_article Demo.tools data Demo.world0))) /\
  In (CallGetInfo (mkNormaVisitata act None None None (Some u)))
     (new_events Demo.world0 (snd (brocardi_info Demo.tools data Demo.world0))) /\
  exists expires : Z,
    TTL.find_link (act, "3")
      (TTL.links (article_cache
                    (snd (extract_article Demo.tools data Demo.world0))))
    = Some (TTL.Link (act, "3") "text" expires).
Proof.
  intros u data act.
  destruct (C10_act_type_fixed Demo.tools data Demo.world0 u eq_refl)
    as (_ & Hart & _ & Hscrape).
  destruct (Hart "3" eq_refl) as (Hkey & _ & Hcall).
  split; [by apply Hcall|]. split; [by apply Hscrape|].
  apply Hkey.
  - repeat split; reflexivity.
  - vm_compute. reflexivity.
Defined.

(** ** Resolution *)

#[local] Instance item_le_total : Total item_le.
Proof.
  intros [k1 v1] [k2 v2]. unfold item_le. simpl.
  repeat case_decide; simplify_eq; apply (total String.le).
Qed.

#[local] Instance item_le_trans : Transitive item_le.
Proof.
  intros [k1 v1] [k2 v2] [k3 v3]. unfold item_le. simpl.
  repeat case_decide; simplify_eq; intros Ha Hb; try done; try (by etrans).
  exfalso. match goal with H : _ <> _ |- _ => apply H end.
  by apply (anti_symm String.le).
Qed.

#[local] Instance item_le_antisym : AntiSymm (=) item_le.
Proof.
  intros [k1 v1] [k2 v2]. unfold item_le. simpl.
  repeat case_decide; simplify_eq; intros Ha Hb; try done.
  - f_equal. by apply (anti_symm String.le).
  - exfalso. match goal with H : _ <> _ |- _ => apply H end.
    by apply (anti_symm String.le).
Qed.

(** The key does not depend on the order of the fields. *)
Lemma convert_to_hashable_perm (d1 d2 : dict) :
  d1 ≡ₚ d2 -> convert_to_hashable d1 = convert_to_hashable d2.
Proof.
  intros Hp. unfold convert_to_hashable.
  apply (Sorted_unique item_le); try apply Sorted_merge_sort; try apply _.
  by rewrite !merge_sort_Permutation.
Qed.

Lemma dict_get_Some key v (d : dict) :
  NoDup d.*1 -> dict_get key d = Some v <-> (key, v) ∈ d.
Proof.
  induction d as [|[k x] d IH]; simpl; intros Hnd.
  - split; [done|]. by intros ?%elem_of_nil.
  - apply NoDup_cons in Hnd as [Hk Hnd]. rewrite elem_of_cons.
    destruct (decide (k = key)) as [->|Hne].
    + rewrite bool_decide_eq_true_2 by done. split.
      * intros [= ->]. by left.
      * intros [[= ->]|Hin]; [done|].
        destruct Hk. apply list_elem_of_fmap. by exists (key, v).
    + rewrite bool_decide_eq_false_2 by done. rewrite IH by done.
      split; [by right|]. intros [[= -> ->]|Hin]; [done|done].
Qed.

(** Nor do the fields read from the request. *)
Lemma dict_get_perm key (d1 d2 : dict) :
  NoDup d1.*1 -> d1 ≡ₚ d2 -> dict_get key d1 = dict_get key d2.
Proof.
  intros Hnd Hp.
  assert (NoDup d2.*1) as Hnd2 by by rewrite <- Hp.
  destruct (dict_get key d1) as [v|] eqn:H1.
  - symmetry. apply dict_get_Some; [done|]. rewrite <- Hp.
    by apply dict_get_Some.
  - destruct (dict_get key d2) as [v|] eqn:H2; [|done].
    apply dict_get_Some in H2; [|done]. rewrite <- Hp in H2.
    apply dict_get_Some in H2; [|done]. congruence.
Qed.

Section ResolveFacts.
Context {Ext Driver Tree : Type} (T : @Tools Ext Driver Tree).
Implicit Types (w : @World Ext Driver) (data : dict).

Lemma wrapped_same_fields data1 data2 w :
  (forall key, dict_get key data1 = dict_get key data2) ->
  create_norma_instance__wrapped data1 w = create_norma_instance__wrapped data2 w.
Proof.
  intros Hsame. unfold create_norma_instance__wrapped. unfold_M.
  by rewrite !Hsame.
Qed.

Lemma wrapped_result_indep data w w0 :
  fst (create_norma_instance__wrapped data w) =
  fst (create_norma_instance__wrapped data w0).
Proof.
  unfold create_norma_instance__wrapped. unfold_M. by step_M.
Qed.

Lemma wrapped_key data w :
  NoDup data.*1 ->
  create_norma_instance__wrapped (convert_to_hashable data) w =
  create_norma_instance__wrapped data w.
Proof.
  intros Hnd. apply wrapped_same_fields. intros key. symmetry.
  apply dict_get_perm; [done|]. unfold convert_to_hashable.
  by rewrite merge_sort_Permutation.
Qed.

Lemma In_setitem {K V} `{EqDecision K} now (k : K) (v : V) c l :
  In l (TTL.links (TTL.setitem now k v c)) ->
  In l (TTL.links c) \/ l = TTL.Link k v (now + TTL.ttl c).
Proof.
  unfold TTL.setitem. destruct (bool_decide _); simpl.
  { unfold TTL.expire. intros [Hin _]%filter_In. by left. }
  intros [Hin|[<-|[]]]%in_app_or; [left|by right].
  apply filter_In in Hin as [Hin _].
  assert (In l (TTL.expire now (TTL.links c))) as Hin'.
  { destruct (TTL.find_link k _); [done|].
    apply list_elem_of_In. apply list_elem_of_In in Hin.
    eapply (subseteq_drop _ _ _ Hin). }
  unfold TTL.expire in Hin'. by apply filter_In in Hin' as [? _].
Qed.

(** With a consistent cache, the wrapper returns what the function would. *)
Lemma create_norma_instance_result data w :
  NoDup data.*1 -> norma_cache_ok w ->
  fst (create_norma_instance data w) =
    fst (create_norma_instance__wrapped data w) /\
  norma_cache_ok (snd (create_norma_instance data w)).
Proof.
  intros Hnd Hok. unfold create_norma_instance.
  set (k := convert_to_hashable data).
  set (f := create_norma_instance__wrapped data).
  assert (norma_cache_ok (after_lookup norma_cache_lens k w)) as Hok'.
  { intros l. unfold after_lookup. simpl. rewrite getitem_links.
    intros Hin%In_move_to_end. by apply Hok. }
  destruct (TTL.live (clock (env w)) k (norma_cache w)) as [v|] eqn:Hlive.
  - rewrite (cached_hit norma_cache_lens k f w v Hlive). simpl.
    split; [|done].
    unfold TTL.live in Hlive.
    destruct (TTL.find_link k (TTL.links (norma_cache w))) as [l|] eqn:Hf;
      [|done].
    destruct (bool_decide _); [|done]. simplify_eq.
    apply find_link_Some in Hf as [Hk Hin].
    specialize (Hok l Hin w). rewrite Hk in Hok. unfold k in Hok.
    rewrite wrapped_key in Hok by done. done.
  - rewrite (cached_miss norma_cache_lens k f w Hlive).
    unfold compute_and_store, bind.
    pose proof (create_norma_instance_leaves_cache data
                  (after_lookup norma_cache_lens k w)) as Hleave.
    pose proof (wrapped_result_indep data (after_lookup norma_cache_lens k w) w)
      as Hind.
    fold f in Hleave, Hind.
    destruct (f (after_lookup norma_cache_lens k w)) as [[v|e] w1] eqn:Hrun;
      simpl in *.
    + split; [done|]. intros l [Hin| ->]%In_setitem.
      * apply Hok'. simpl. by rewrite <- Hleave.
      * intros w0. simpl. unfold k. rewrite wrapped_key by done.
        rewrite (wrapped_result_indep data w0 w). unfold f in Hind. congruence.
    + split; [done|]. intros l Hin. apply Hok'. simpl. by rewrite <- Hleave.
Qed.

(** The response of [create_norma] is a function of what the cached
    function returns. *)
Lemma create_norma_response data w :
  fst (create_norma T data w) =
  Ok (norma_response T
        (fst (create_norma_instance data
                (with_trace (trace w ++ [Log INFO "Received data for create_norma: {data}"]) w)))).
Proof.
  unfold create_norma, norma_response. unfold_M.
  destruct (create_norma_instance data _) as [[nv|e] w']; [|done].
  simpl. destruct (to_dict T nv); [|done].
  destruct (tree T nv); [|done]. simpl. by destruct (get_urn T nv).
Qed.

Lemma create_norma_cache data w :
  norma_cache (snd (create_norma T data w)) =
  norma_cache (snd (create_norma_instance data
               (with_trace (trace w ++ [Log INFO "Received data for create_norma: {data}"]) w))).
Proof.
  unfold create_norma. unfold_M.
  destruct (create_norma_instance data _) as [[nv|e] w']; [|done].
  simpl. destruct (to_dict T nv); [|done].
  destruct (tree T nv); [|done]. simpl. by destruct (get_urn T nv).
Qed.

End ResolveFacts.



(** ** Callers of a cached function *)

Section ConcurrentFacts.
Context {Ext Driver : Type} {K V : Type} `{EqDecision K}.
Context (L : @lens Ext Driver K V) (k : K) (func : @M Ext Driver V).
Implicit Types (cfg : @config Ext Driver V) (i : nat).

Lemma sched_step_done cfg i r :
  threads cfg !! i = Some (Done r) -> sched_step L k func cfg i = cfg.
Proof.
  intros Hi. unfold sched_step. rewrite Hi. simpl.
  destruct cfg as [w ts c]. simpl in *. f_equal.
  - by apply list_insert_id.
  - lia.
Qed.

(** A caller that finds a live entry returns it in its first step. *)
Lemma caller_hit cfg i v expires :
  threads cfg !! i = Some Start ->
  TTL.find_link k (TTL.links (view L (world cfg))) = Some (TTL.Link k v expires) ->
  clock (env (world cfg)) < expires ->
  run L k func [i; i; i] cfg =
    mkConfig (after_lookup L k (world cfg))
             (<[i := Done (Ok v)]> (threads cfg)) (computes cfg).
Proof.
  intros Hi Hf Hlt.
  assert (TTL.live (clock (env (world cfg))) k (view L (world cfg)) = Some v)
    as Hlive.
  { unfold TTL.live. rewrite Hf. simpl. by rewrite bool_decide_eq_true_2. }
  assert (sched_step L k func cfg i =
          mkConfig (after_lookup L k (world cfg))
                   (<[i := Done (Ok v)]> (threads cfg)) (computes cfg)) as Hstep.
  { unfold sched_step. rewrite Hi. simpl. rewrite lookup_step_eq, Hlive.
    f_equal. lia. }
  unfold run. simpl. rewrite Hstep.
  assert (i < length (threads cfg))%nat as Hlen by by eapply lookup_lt_Some.
  set (cfg1 := mkConfig (after_lookup L k (world cfg))
                        (<[i := Done (Ok v)]> (threads cfg)) (computes cfg)).
  assert (sched_step L k func cfg1 i = cfg1) as Hdone.
  { apply (sched_step_done _ i (Ok v)). simpl. by apply list_lookup_insert_eq. }
  by rewrite !Hdone.
Qed.

(** A caller that misses calls the function and stores its value. *)
Lemma caller_miss cfg i v w1 :
  threads cfg !! i = Some Start ->
  TTL.live (clock (env (world cfg))) k (view L (world cfg)) = None ->
  func (after_lookup L k (world cfg)) = (Ok v, w1) ->
  run L k func [i; i; i] cfg =
    mkConfig (snd (store_step L k v w1))
             (<[i := Done (Ok v)]> (threads cfg)) (computes cfg + 1)%nat.
Proof.
  intros Hi Hlive Hrun.
  assert (i < length (threads cfg))%nat as Hlen by by eapply lookup_lt_Some.
  unfold run. simpl.
  unfold sched_step at 3. rewrite Hi. simpl. rewrite lookup_step_eq, Hlive.
  unfold sched_step at 2. simpl.
  rewrite list_lookup_insert_eq by done. simpl. rewrite Hrun.
  unfold sched_step. simpl.
  rewrite list_lookup_insert_eq by by rewrite length_insert.
  simpl. rewrite !list_insert_insert_eq. f_equal. lia.
Qed.

(** Once the entry is there, the callers that follow one after the other,
    each before the entry expires, all hit. *)
Lemma callers_after_store es : forall j cfg v expires,
  lens_ok L ->
  threads cfg = (replicate j (Done (Ok v)) ++ replicate (length es) Start)%list ->
  TTL.find_link k (TTL.links (view L (world cfg))) = Some (TTL.Link k v expires) ->
  Forall (fun e => clock e < expires) es ->
  let cfg' :=
    fold_left (fun cfg '(i, e) => run L k func [i; i; i] (arrive cfg e))
              (zip (seq j (length es)) es) cfg in
  computes cfg' = computes cfg /\
  threads cfg' = replicate (j + length es) (Done (Ok v)).
Proof.
  induction es as [|e es IH]; intros j cfg v expires HL Hts Hf Hlt.
  - simpl. split; [done|]. rewrite Hts. simpl.
    by rewrite app_nil_r, Nat.add_0_r.
  - apply Forall_cons in Hlt as [He Hlt]. intros cfg'. unfold cfg'.
    change (zip (seq j (length (e :: es))) (e :: es))
      with ((j, e) :: zip (seq (S j) (length es)) es).
    cbn [fold_left].
    assert (threads (arrive cfg e) !! j = Some Start) as Hj.
    { simpl. rewrite Hts, lookup_app_r by by rewrite length_replicate.
      by rewrite length_replicate, Nat.sub_diag. }
    assert (TTL.find_link k (TTL.links (view L (world (arrive cfg e))))
            = Some (TTL.Link k v expires)) as Hf'.
    { simpl. by rewrite (view_with_env L HL). }
    rewrite (caller_hit (arrive cfg e) j v expires Hj Hf' He).
    match goal with
    | |- context [fold_left _ _ ?c] =>
        destruct (IH (S j) c v expires HL) as [Hc Ht]
    end.
    + simpl. rewrite Hts.
      rewrite insert_app_r_alt by by rewrite length_replicate.
      rewrite length_replicate, Nat.sub_diag. simpl.
      by rewrite (cons_middle (Done (Ok v))), app_assoc, <- replicate_S_end.
    + simpl. unfold after_lookup.
      rewrite (view_over L HL), getitem_links, find_link_move_to_end.
      by rewrite (view_with_env L HL).
    + done.
    + rewrite Hc, Ht. simpl.
      replace (j + S (length es))%nat with (S j + length es)%nat by lia. done.
Qed.

End ConcurrentFacts.

(** C1, as stated, fails: two callers of [create_norma_instance] with the
    same fields that both look the key up before either has stored its value
    both miss, and the function runs twice. *)
Lemma C1_two_callers_compute_twice :
  ~ single_flight (norma_cache_lens (Ext:=unit) (Driver:=nat))
      (convert_to_hashable Demo.request_norma)
      (create_norma_instance__wrapped Demo.request_norma).
Proof.
  intros Hsf.
  destruct (Hsf 2%nat Demo.world0 [0; 1; 0; 1; 0; 1]%nat) as [Hc _].
  - lia.
  - reflexivity.
  - vm_compute. reflexivity.
  - vm_compute in Hc. discriminate.
Qed.

(** C1, amended.  The wrapper does not coordinate its callers: each caller
    that misses calls the function itself.  When the callers come one after
    the other, each returning before the next one starts, the function
    succeeds for the first of them, and each of the others looks the key up
    before the entry stored for the first has expired, that is less than
    [ttl] after the store, then the function is called exactly once and
    every caller receives the value of that call. *)
Theorem C1_sequential_callers_compute_once
  {Ext Driver K V : Type} `{EqDecision K}
  (L : @lens Ext Driver K V) (k : K) (func : M V)
  (es : list Env) (w w1 : World) (v : V) :
  lens_ok L -> leaves_cache L func ->
  (1 <= TTL.maxsize (view L w))%nat -> 0 < TTL.ttl (view L w) ->
  TTL.live (clock (env w)) k (view L w) = None ->
  func (after_lookup L k w) = (Ok v, w1) ->
  Forall (fun e => clock e < clock (env w1) + TTL.ttl (view L w)) es ->
  let cfg := run_sequential L k func es (callers (S (length es)) w) in
  computes cfg = 1%nat /\ threads cfg = replicate (S (length es)) (Done (Ok v)).
Proof.
  intros HL Hleave Hm Httl Hlive Hrun Hes.
  intros cfg. unfold cfg, run_sequential.
  rewrite (caller_miss L k func (callers (S (length es)) w) 0 v w1); try done.
  pose proof (Hleave (after_lookup L k w)) as Hsame.
  rewrite Hrun in Hsame. simpl in Hsame.
  assert (TTL.maxsize (view L w1) = TTL.maxsize (view L w) /\
          TTL.ttl (view L w1) = TTL.ttl (view L w)) as [Hm1 Ht1].
  { rewrite Hsame. unfold after_lookup. rewrite (view_over L HL).
    by rewrite getitem_maxsize, getitem_ttl. }
  match goal with
  | |- context [fold_left _ _ ?c] =>
      destruct (callers_after_store L k func es 1 c v
                  (clock (env w1) + TTL.ttl (view L w1)) HL) as [Hc Ht]
  end.
  - done.
  - simpl. rewrite (view_over L HL). apply find_link_setitem. lia.
  - by rewrite Ht1.
  - by rewrite Hc, Ht.
Qed.

(** C1 at work: three callers, the second 300 seconds and the third 599
    seconds after the first. *)
Lemma C1_sequential_callers_compute_once_witness :
  let cfg :=
    run_sequential norma_cache_lens (convert_to_hashable Demo.request_norma)
        (create_norma_instance__wrapped Demo.request_norma)
        [mkEnv 300 ∅ tt; mkEnv 599 ∅ tt] (callers 3 Demo.world0) in
  computes cfg = 1%nat.
Proof.
  refine (proj1 (C1_sequential_callers_compute_once
            (norma_cache_lens (Ext:=unit) (Driver:=nat))
            (convert_to_hashable Demo.request_norma)
            (create_norma_instance__wrapped Demo.request_norma)
            [mkEnv 300 ∅ tt; mkEnv 599 ∅ tt] Demo.world0
            (snd (create_norma_instance__wrapped Demo.request_norma Demo.world0))
            (mkNormaVisitata
               (mkNorma "legge" (Some "1990-01-01") (Some "9") None)
               (Some "3") (Some "vigente") None None)
            _ _ _ _ _ _ _)).
  - apply norma_cache_lens_ok.
  - apply create_norma_instance_leaves_cache.
  - simpl. lia.
  - simpl. lia.
  - reflexivity.
  - vm_compute. reflexivity.
  - repeat constructor.
Defined.

(** The condition on the time is needed: a caller that comes when the entry
    has expired, 600 seconds after the store, calls the function again. *)
Example callers_after_expiry_compute_again :
  computes
    (run_sequential norma_cache_lens (convert_to_hashable Demo.request_norma)
       (create_norma_instance__wrapped Demo.request_norma)
       [mkEnv 599 ∅ tt; mkEnv 600 ∅ tt] (callers 3 Demo.world0)) = 2%nat.
Proof. vm_compute. reflexivity. Qed.

(** ** The identifier grammar *)

Section StringFacts.
Import Identifier.
#[local] Arguments String.append !_ _ / : simpl nomatch.

Lemma string_app_nil_r (s : string) : s ++ EmptyString = s.
Proof. induction s; simpl; congruence. Qed.

Lemma string_app_assoc (a b c : string) : (a ++ b) ++ c = a ++ (b ++ c).
Proof. induction a; simpl; congruence. Qed.

Lemma strip_prefix_app (p s : string) : strip_prefix p (p ++ s) = Some s.
Proof.
  induction p as [|a p IH]; simpl; [by destruct s|].
  by rewrite bool_decide_eq_true_2.
Qed.

Lemma strip_prefix_Some (p s r : string) :
  strip_prefix p s = Some r -> s = p ++ r.
Proof.
  revert s. induction p as [|a p IH]; intros s; simpl.
  - destruct s; congruence.
  - destruct s as [|b s]; [done|]. case_bool_decide; [|done].
    intros Hr. subst b. simpl. f_equal. by apply IH.
Qed.

Lemma char_free_app c (s t : string) :
  char_free c (s ++ t) = char_free c s && char_free c t.
Proof.
  induction s as [|a s IH]; simpl; [done|]. rewrite IH.
  by rewrite andb_assoc.
Qed.

Lemma split_at_free_app c (s t : string) :
  char_free c s = true ->
  split_at c (s ++ t) = (s ++ (split_at c t).1, (split_at c t).2).
Proof.
  induction s as [|a s IH]; simpl.
  - intros _. by destruct (split_at c t).
  - intros [Ha Hs]%andb_true_iff. apply negb_true_iff in Ha. rewrite Ha.
    by rewrite (IH Hs).
Qed.

Lemma split_at_free c (s : string) :
  char_free c s = true -> split_at c s = (s, None).
Proof.
  intros Hs. rewrite <- (string_app_nil_r s) at 1.
  rewrite split_at_free_app by done. simpl. by rewrite string_app_nil_r.
Qed.

Lemma split_at_found c (s t : string) :
  char_free c s = true -> split_at c (s ++ String c t) = (s, Some t).
Proof.
  intros Hs. rewrite split_at_free_app by done. simpl.
  rewrite bool_decide_eq_true_2 by done. simpl. by rewrite string_app_nil_r.
Qed.

Lemma split_at_Some c (s x y : string) :
  split_at c s = (x, Some y) -> s = x ++ String c y.
Proof.
  revert x. induction s as [|a s IH]; intros x; simpl; [done|].
  case_bool_decide.
  - intros [= <- <-]. by subst.
  - destruct (split_at c s) as [x' y'] eqn:Hs. intros [= <- ->].
    simpl. f_equal. by apply IH.
Qed.

Lemma split_at_None c (s x : string) : split_at c s = (x, None) -> s = x.
Proof.
  revert x. induction s as [|a s IH]; intros x; simpl; [congruence|].
  case_bool_decide; [done|].
  destruct (split_at c s) as [x' y'] eqn:Hs. intros [= <- ->].
  f_equal. by apply IH.
Qed.

Lemma sep_free_char_free c (s : string) :
  is_sep c = true -> sep_free s = true -> char_free c s = true.
Proof.
  intros Hc. induction s as [|a s IH]; simpl; [done|].
  intros [Ha Hs]%andb_true_iff. rewrite (IH Hs), andb_true_r.
  apply negb_true_iff, bool_decide_eq_false. intros ->.
  by rewrite Hc in Ha.
Qed.

Lemma field_char_free c (s : string) :
  is_sep c = true -> field s = true -> char_free c s = true.
Proof.
  intros Hc [_ Hs]%andb_true_iff. by apply sep_free_char_free.
Qed.

Lemma field_nonempty (s : string) : field s = true -> s <> EmptyString.
Proof.
  intros [Hne _]%andb_true_iff. by apply negb_true_iff, bool_decide_eq_false in Hne.
Qed.

Lemma parse_field_Some (s s' : string) :
  parse_field s = Some s' <-> s' = s /\ field s = true.
Proof.
  unfold parse_field. destruct (field s).
  - split; [by intros [= <-]|by intros [-> _]].
  - split; [done|by intros [_ ?]].
Qed.

Lemma parse_label_Some (s s' : string) :
  parse_label s = Some s' <-> s' = s /\ field s = true /\ s <> current.
Proof.
  unfold parse_label. case_bool_decide as Hs.
  - split; [done|]. by intros (_ & _ & ?).
  - rewrite parse_field_Some. tauto.
Qed.

Lemma parse_opt_field_Some (s : string) (o : option string) :
  parse_opt_field s = Some o <->
  (s = EmptyString /\ o = None) \/ (o = Some s /\ field s = true).
Proof.
  unfold parse_opt_field. case_bool_decide as Hs.
  - subst s. split.
    + intros [= <-]. by left.
    + intros [[_ ->]|[_ Hf]]; [done|done].
  - destruct (field s) eqn:Hf; split.
    + intros [= <-]. by right.
    + intros [[? _]|[-> _]]; [done|done].
    + done.
    + intros [[? _]|[_ ?]]; [done|done].
Qed.

Lemma parse_opt_field_seg (n : option string) :
  opt_field n = true -> parse_opt_field (seg_number n) = Some n.
Proof.
  intros Hn. apply parse_opt_field_Some. destruct n as [n|]; simpl in *.
  - by right.
  - by left.
Qed.

(** *** From references to strings and back *)

Lemma parse_date_number_seg (d n : option string) :
  opt_field d = true -> opt_field n = true ->
  parse_date_number (seg_date d ++ seg_number n) = Some (d, n).
Proof.
  intros Hd Hn. unfold parse_date_number. destruct d as [d|]; simpl in *.
  - rewrite string_app_assoc. simpl.
    rewrite split_at_found by by apply field_char_free.
    rewrite (proj2 (parse_field_Some d d)) by done. simpl.
    by rewrite parse_opt_field_seg.
  - rewrite split_at_free.
    + by rewrite parse_opt_field_seg.
    + destruct n as [n|]; simpl in *; [by apply field_char_free|done].
Qed.

Lemma seg_date_free c (d : option string) :
  is_sep c = true -> c <> ";"%char -> opt_field d = true ->
  char_free c (seg_date d) = true.
Proof.
  intros Hc Hne Hd. destruct d as [d|]; simpl in *; [|done].
  rewrite char_free_app, (field_char_free c d) by done. simpl.
  rewrite bool_decide_eq_false_2 by congruence. done.
Qed.

Lemma seg_number_free c (n : option string) :
  is_sep c = true -> opt_field n = true -> char_free c (seg_number n) = true.
Proof.
  intros Hc Hn. destruct n as [n|]; simpl in *; [|done].
  by apply field_char_free.
Qed.

Lemma seg_article_free (a : option string) :
  opt_field a = true -> char_free "!" (seg_article a) = true.
Proof.
  intros Ha. destruct a as [a|]; simpl in *; [|done].
  by apply field_char_free.
Qed.

Lemma parse_article_seg (d n a : option string) :
  opt_field d = true -> opt_field n = true -> opt_field a = true ->
  (let (dn, art) := split_at "~" (seg_date d ++ seg_number n ++ seg_article a) in
   dn = seg_date d ++ seg_number n /\ parse_article art = Some a).
Proof.
  intros Hd Hn Ha.
  rewrite <- string_app_assoc.
  assert (char_free "~" (seg_date d ++ seg_number n) = true) as Hfree.
  { by rewrite char_free_app, seg_date_free, seg_number_free. }
  destruct a as [a|]; simpl in *.
  - rewrite split_at_found by done. split; [done|].
    simpl. by rewrite (proj2 (parse_field_Some a a)).
  - rewrite string_app_nil_r, split_at_free by done. done.
Qed.

Lemma parse_version_seg (d n a v vd : option string) :
  opt_field d = true -> opt_field n = true -> opt_field a = true ->
  opt_field v = true -> opt_field vd = true -> (v = None -> vd = None) ->
  v <> Some current ->
  (let (main, ver) :=
     split_at "!" (seg_date d ++ seg_number n ++ seg_article a ++ seg_version v vd) in
   main = seg_date d ++ seg_number n ++ seg_article a /\
   parse_version ver = Some (v, vd)).
Proof.
  intros Hd Hn Ha Hv Hvd Hnest Hcur.
  rewrite <- !string_app_assoc.
  assert (char_free "!" ((seg_date d ++ seg_number n) ++ seg_article a) = true)
    as Hfree.
  { by rewrite !char_free_app, seg_date_free, seg_number_free, seg_article_free. }
  destruct v as [v|]; simpl in *.
  - rewrite split_at_found by done. rewrite string_app_assoc.
    split; [done|]. simpl. destruct vd as [vd|]; simpl in *.
    + rewrite split_at_found by by apply field_char_free.
      rewrite (proj2 (parse_label_Some v v)) by (repeat split; congruence).
      by rewrite (proj2 (parse_field_Some vd vd)).
    + rewrite string_app_nil_r, split_at_free by by apply field_char_free.
      by rewrite (proj2 (parse_label_Some v v)) by (repeat split; congruence).
  - rewrite (Hnest eq_refl). rewrite string_app_nil_r, split_at_free by done.
    by rewrite string_app_assoc.
Qed.

(** *** From strings to references *)

Lemma parse_date_number_sound (s : string) (d n : option string) :
  parse_date_number s = Some (d, n) ->
  s = seg_date d ++ seg_number n /\ opt_field d = true /\ opt_field n = true.
Proof.
  unfold parse_date_number.
  destruct (split_at ";" s) as [x [y|]] eqn:Hs; intros Hp.
  - apply split_at_Some in Hs. subst s.
    destruct (parse_field x) as [d'|] eqn:Hx; simpl in Hp; [|done].
    destruct (parse_opt_field y) as [n'|] eqn:Hy; simpl in Hp; [|done].
    injection Hp as <- <-.
    apply parse_field_Some in Hx as [-> Hx].
    apply parse_opt_field_Some in Hy as [[-> ->]|[-> Hy]]; simpl;
      rewrite ?string_app_assoc; simpl; by rewrite ?string_app_nil_r.
  - apply split_at_None in Hs. subst x.
    destruct (parse_opt_field s) as [n'|] eqn:Hy; simpl in Hp; [|done].
    injection Hp as <- <-.
    by apply parse_opt_field_Some in Hy as [[-> ->]|[-> Hy]].
Qed.

Lemma parse_article_sound (main dn : string) (art a : option string) :
  split_at "~" main = (dn, art) ->
  parse_article art = Some a ->
  main = dn ++ seg_article a /\ opt_field a = true.
Proof.
  intros Hs Hp. unfold parse_article in Hp. destruct art as [s|].
  - apply split_at_Some in Hs. subst main.
    destruct (strip_prefix "art" s) as [x|] eqn:Hx; simpl in Hp; [|done].
    destruct (parse_field x) as [a'|] eqn:Ha; simpl in Hp; [|done].
    injection Hp as <-.
    apply parse_field_Some in Ha as [-> Ha].
    apply strip_prefix_Some in Hx. by subst s.
  - apply split_at_None in Hs. injection Hp as <-. subst dn.
    simpl. by rewrite string_app_nil_r.
Qed.

Lemma parse_version_sound (body main : string) (ver v vd : option string) :
  split_at "!" body = (main, ver) ->
  parse_version ver = Some (v, vd) ->
  body = main ++ seg_version v vd /\
  opt_field v = true /\ opt_field vd = true /\ (v = None -> vd = None) /\
  v <> Some current.
Proof.
  intros Hs Hp. unfold parse_version in Hp. destruct ver as [s|].
  - apply split_at_Some in Hs. subst body.
    destruct (split_at "@" s) as [x [y|]] eqn:Hx.
    + apply split_at_Some in Hx. subst s.
      destruct (parse_label x) as [v'|] eqn:Hv; simpl in Hp; [|done].
      destruct (parse_field y) as [d'|] eqn:Hd; simpl in Hp; [|done].
      injection Hp as <- <-.
      apply parse_label_Some in Hv as (-> & Hv & Hcur).
      apply parse_field_Some in Hd as [-> Hd].
      repeat split; try done. congruence.
    + apply split_at_None in Hx. subst x.
      destruct (parse_label s) as [v'|] eqn:Hv; simpl in Hp; [|done].
      injection Hp as <- <-.
      apply parse_label_Some in Hv as (-> & Hv & Hcur). simpl.
      rewrite string_app_nil_r. repeat split; try done. congruence.
  - apply split_at_None in Hs. injection Hp as <- <-. subst main.
    simpl. by rewrite string_app_nil_r.
Qed.

End StringFacts.

Section GrammarFacts.
Import Identifier.
#[local] Arguments String.append !_ _ / : simpl nomatch.
Variables scheme authority : string.

Lemma version_of_segment (v : string) : version_of (version_segment v) = v.
Proof. unfold version_of, version_segment. by case_bool_decide. Qed.

Lemma parse_build (r : ActReference) :
  valid r = true -> parse scheme authority (build scheme authority r) = Parsed r.
Proof.
  destruct r as [[t d n] a v vd]. unfold valid.
  cbn [act act_type date number article version version_date].
  intros Hvalid.
  apply andb_true_iff in Hvalid as [Hvalid Hnest'].
  apply andb_true_iff in Hvalid as [Hvalid Hvd].
  apply andb_true_iff in Hvalid as [Hvalid Hv].
  apply andb_true_iff in Hvalid as [Hvalid Ha].
  apply andb_true_iff in Hvalid as [Hvalid Hn].
  apply andb_true_iff in Hvalid as [Ht Hd].
  assert (opt_field (version_segment v) = true) as Hseg.
  { unfold version_segment. by case_bool_decide. }
  assert (version_segment v = None -> vd = None) as Hnest.
  { unfold version_segment. case_bool_decide as Hc; [|done]. intros _.
    simpl in Hnest'. destruct vd as [x|]; [|done].
    rewrite bool_decide_eq_true_2 in Hnest' by by exists x. done. }
  assert (version_segment v <> Some current) as Hcur.
  { unfold version_segment. case_bool_decide; congruence. }
  unfold parse, build.
  cbn [act act_type date number article version version_date].
  rewrite strip_prefix_app. cbn [mbind option_bind].
  unfold parse_body.
  change (":" ++ ?x) with (String ":" x).
  rewrite split_at_found by by apply field_char_free.
  pose proof (parse_version_seg d n a (version_segment v) vd) as Hver.
  destruct (split_at "!" _) as [main ver].
  destruct Hver as [-> Hver]; try done.
  pose proof (parse_article_seg d n a) as Hart.
  destruct (split_at "~" _) as [dn art].
  destruct Hart as [-> Hart]; try done.
  rewrite (proj2 (parse_field_Some t t)) by done. simpl.
  rewrite parse_date_number_seg by done. simpl.
  rewrite Hart. simpl. rewrite Hver. simpl. by rewrite version_of_segment.
Qed.

Lemma parse_sound (s : string) (r : ActReference) :
  parse scheme authority s = Parsed r -> matches_grammar scheme authority s.
Proof.
  unfold parse.
  destruct (strip_prefix (prefix scheme authority) s) as [rest|] eqn:Hpre;
    [|done].
  apply strip_prefix_Some in Hpre. subst s. simpl.
  unfold parse_body.
  destruct (split_at ":" rest) as [t [body|]] eqn:Ht; [|done].
  apply split_at_Some in Ht. subst rest.
  destruct (split_at "!" body) as [main ver] eqn:Hver.
  destruct (split_at "~" main) as [dn art] eqn:Hart.
  destruct (parse_field t) as [t'|] eqn:Hf; [|done]. simpl.
  destruct (parse_date_number dn) as [[d n]|] eqn:Hdn; [|done]. simpl.
  destruct (parse_article art) as [a|] eqn:Ha; [|done]. simpl.
  destruct (parse_version ver) as [[v vd]|] eqn:Hv; [|done]. simpl.
  intros _.
  apply parse_field_Some in Hf as [-> Hf].
  apply parse_date_number_sound in Hdn as (-> & Hd & Hn).
  destruct (parse_article_sound _ _ _ _ Hart Ha) as [-> Ha'].
  destruct (parse_version_sound _ _ _ _ _ Hver Hv)
    as (-> & Hv' & Hvd & Hnest & Hcur).
  exists t, d, n, a, v, vd. repeat split; try done.
  by rewrite !string_app_assoc.
Qed.

(** Every string of the grammar is the identifier of a valid reference. *)
Lemma grammar_build (s : string) :
  matches_grammar scheme authority s ->
  exists r : ActReference, valid r = true /\ build scheme authority r = s.
Proof.
  intros (t & d & n & a & v & vd & Ht & Hd & Hn & Ha & Hv & Hvd & Hnest
          & Hcur & ->).
  exists (mkRef (mkAct t d n) a (version_of v) vd). split.
  - unfold valid.
    cbn [act act_type date number article version version_date].
    rewrite Ht, Hd, Hn, Ha, Hvd. simpl.
    destruct v as [x|]; simpl in *.
    + rewrite Hv. simpl. rewrite bool_decide_eq_false_2 by congruence. done.
    + by rewrite (Hnest eq_refl).
  - unfold build.
    cbn [act act_type date number article version version_date].
    replace (version_segment (version_of v)) with v; [done|].
    unfold version_segment, version_of. destruct v as [x|].
    + rewrite bool_decide_eq_false_2 by congruence. done.
    + by rewrite bool_decide_eq_true_2.
Qed.

End GrammarFacts.

(** C2.  With the segments of the grammar delimited by [: ; ~ ! @] and the
    version [current] written as no version segment, parsing the identifier
    built from a valid reference gives the reference back, a string that is
    not of the grammar is rejected with [MalformedIdentifier], and the
    strings of the grammar are exactly the identifiers of the valid
    references. *)
Theorem C2_identifier_round_trip (scheme authority : string) :
  (forall r : Identifier.ActReference,
     Identifier.valid r = true ->
     Identifier.parse scheme authority (Identifier.build scheme authority r)
       = Identifier.Parsed r) /\
  (forall s : string,
     ~ Identifier.matches_grammar scheme authority s ->
     Identifier.parse scheme authority s = Identifier.MalformedIdentifier) /\
  (forall s : string,
     Identifier.matches_grammar scheme authority s <->
     exists r : Identifier.ActReference,
       Identifier.valid r = true /\
       Identifier.build scheme authority r = s).
Proof.
  split; [|split].
  - apply parse_build.
  - intros s Hno.
    destruct (Identifier.parse scheme authority s) as [r|] eqn:Hp; [|done].
    destruct Hno. by eapply parse_sound.
  - intros s. split; [apply grammar_build|].
    intros (r & Hr & <-). eapply parse_sound. by apply parse_build.
Qed.

(** ** Instances *)

(** C2 at work: the reference of the end-to-end example of the spec, the
    same article in a version pinned to a date, and a string that stops
    after the authority. *)
Lemma C2_identifier_round_trip_witness :
  Identifier.parse "urn" "nir"
    (Identifier.build "urn" "nir" DemoStates.reference)
    = Identifier.Parsed DemoStates.reference /\
  Identifier.parse "urn" "nir"
    (Identifier.build "urn" "nir" DemoStates.reference_pinned)
    = Identifier.Parsed DemoStates.reference_pinned /\
  Identifier.parse "urn" "nir" "urn:nir" = Identifier.MalformedIdentifier.
Proof.
  destruct (C2_identifier_round_trip "urn" "nir") as (Hround & Hreject & _).
  split; [|split].
  - apply Hround. reflexivity.
  - apply Hround. reflexivity.
  - apply Hreject.
    intros (t & d & n & a & v & vd & _ & _ & _ & _ & _ & _ & _ & _ & Hs).
    vm_compute in Hs. discriminate Hs.
Defined.

(** The end-to-end example of the spec: act type [statute], date
    [1990-01-01], number [9], article [3], version [current]. *)
Example C2_end_to_end :
  Identifier.build "urn" "nir" DemoStates.reference
  = "urn:nir:statute:1990-01-01;9~art3".
Proof. reflexivity. Qed.

Example C2_pinned_version :
  Identifier.build "urn" "nir" DemoStates.reference_pinned
  = "urn:nir:statute:1990-01-01;9~art3!original@1990-02-01".
Proof. reflexivity. Qed.

(** The version [current] has one spelling only. *)
Example C2_current_is_not_written :
  Identifier.parse "urn" "nir" "urn:nir:statute:1990-01-01;9~art3!current"
  = Identifier.MalformedIdentifier.
Proof. reflexivity. Qed.

(** C6 at work: a request that finds a handle in the slot renders with it. *)
Lemma C6_handle_reused_only_if_slot_filled_witness :
  In (CallExtractPdf 5%nat "urn:nir:stato:costituzione")
     (new_events DemoStates.world_with_driver
        (snd (export_pdf Demo.tools Demo.request_urn
                DemoStates.world_with_driver))).
Proof.
  destruct (C6_handle_reused_only_if_slot_filled Demo.tools Demo.world0
              Demo.request_urn Demo.request_urn) as (_ & _ & Hreuse).
  refine (proj1 (Hreuse DemoStates.world_with_driver Demo.request_urn
                   "urn:nir:stato:costituzione" 5%nat [] _ _ _ _)).
  - reflexivity.
  - reflexivity.
  - reflexivity.
  - eapply (bool_decide_unpack _). vm_compute. exact I.
Defined.

(** C8 at work: inserted at 0, read at 100 and 599, gone at 600. *)
Lemma C8_expired_entry_not_returned_witness :
  fst (TTL.getitem 600 "k"
         (run_ops [OpGet 100 "k"; OpSet 200 "j" "x"; OpGet 599 "k"]
            (TTL.setitem 0 "k" "v" (TTL.new 100 600)))) = None.
Proof.
  refine (proj1 (C8_expired_entry_not_returned
                   (TTL.new 100 600) "k" "v" 0 600
                   [OpGet 100 "k"; OpSet 200 "j" "x"; OpGet 599 "k"] _ _ _)).
  - simpl. lia.
  - reflexivity.
  - simpl. lia.
Defined.

(** One tick earlier the entry is still there, although it was last read at
    time 599 and inserted at time 0. *)
Example entry_returned_before_expiry :
  fst (TTL.getitem 599 "k"
         (run_ops [OpGet 100 "k"; OpSet 200 "j" "x"]
            (TTL.setitem 0 "k" "v" (TTL.new 100 600)))) = Some "v".
Proof. reflexivity. Qed.


(** The handler turns the failure into an error response. *)
Example create_norma_reports_missing_field :
  fst (create_norma Demo.tools DemoStates.request_incomplete Demo.world0)
  = Ok (JsonError "'act_type'").
Proof. reflexivity. Qed.

(** The extraction is handed an act of type "costituzione" also when the
    identifier names a law. *)
Example extract_article_of_a_law :
  new_events Demo.world0
    (snd (extract_article Demo.tools
            [("urn", "urn:nir:stato:legge:1990-08-07;241"); ("article", "3")]
            Demo.world0))
  = [Log INFO "Received data for extract_article: {data}";
     CallExtractHtmlArticle
       (mkNormaVisitata
          (mkNorma "costituzione" None None
                   (Some "urn:nir:stato:legge:1990-08-07;241"))
          (Some "3") None None (Some "urn:nir:stato:legge:1990-08-07;241"));
     Log INFO "Extracted article text: {norma_art_text}"].
Proof. reflexivity. Qed.
(** * Further properties of the handlers *)

(** ** [create_norma] and the history *)

Section CreateNormaFacts.
Context {Ext Driver Tree : Type} (T : @Tools Ext Driver Tree).
Implicit Types (w : @World Ext Driver) (data : dict).

(** What [create_norma] does with the outcome of the cached function. *)
Lemma create_norma_run data w :
  create_norma T data w =
  match create_norma_instance data (create_norma_received w) with
  | (Ok nv, w1) =>
      let failed e :=
        (Ok (JsonError (str_exn e)),
         with_trace (trace w1 ++ [Log ERROR "Error in create_norma: {e}"]) w1) in
      match to_dict T nv with
      | Ok norma_data =>
          match tree T nv with
          | Ok tr =>
              let w2 :=
                with_trace
                  (trace w1 ++
                   [Log INFO "Appended NormaVisitata to history. Current history size: {len(history)}"])
                  (with_history (history w1 ++ [nv]) w1) in
              match get_urn T nv with
              | Ok u => (Ok (JsonNorma norma_data tr u), w2)
              | Raise e =>
                  (Ok (JsonError (str_exn e)),
                   with_trace
                     (trace w2 ++ [Log ERROR "Error in create_norma: {e}"]) w2)
              end
          | Raise e => failed e
          end
      | Raise e => failed e
      end
  | (Raise e, w1) =>
      (Ok (JsonError (str_exn e)),
       with_trace (trace w1 ++ [Log ERROR "Error in create_norma: {e}"]) w1)
  end.
Proof.
  unfold create_norma, create_norma_received. unfold_M.
  destruct (create_norma_instance data _) as [[nv|e] w1]; [|done]. simpl.
  destruct (to_dict T nv); [|done]. destruct (tree T nv); [|done]. simpl.
  by destruct (get_urn T nv).
Qed.

(** The cached function touches the resolution cache and the trace only. *)
Lemma create_norma_instance_frame data w :
  let w' := snd (create_norma_instance data w) in
  env w' = env w /\ history w' = history w /\ drivers w' = drivers w /\
  article_cache w' = article_cache w /\ brocardi_cache w' = brocardi_cache w.
Proof.
  unfold create_norma_instance, cached, lookup_step, store_step,
    create_norma_instance__wrapped. unfold_M. by step_M.
Qed.

(** It does not log an append. *)
Lemma create_norma_instance_trace data w :
  exists evs,
    trace (snd (create_norma_instance data w)) = (trace w ++ evs)%list /\
    List.filter is_appended evs = [].
Proof.
  unfold create_norma_instance, cached, lookup_step, store_step,
    create_norma_instance__wrapped. unfold_M.
  step_M; eexists; (split; [trace_ext|done]).
Qed.

(** The append and its log line go together. *)
Lemma create_norma_ledger data w :
  let (r, w') := create_norma T data w in
  (history w' = history w /\
   List.filter is_appended (new_events w w') = [] /\
   exists msg, r = Ok (JsonError msg)) \/
  (exists nv norma_data tr,
     fst (create_norma_instance data (create_norma_received w)) = Ok nv /\
     to_dict T nv = Ok norma_data /\ tree T nv = Ok tr /\
     history w' = (history w ++ [nv])%list /\
     length (List.filter is_appended (new_events w w')) = 1%nat /\
     r = Ok (match get_urn T nv with
             | Ok u => JsonNorma norma_data tr u
             | Raise e => JsonError (str_exn e)
             end)).
Proof.
  rewrite create_norma_run.
  pose proof (create_norma_instance_frame data (create_norma_received w))
    as (_ & Hh & _).
  destruct (create_norma_instance_trace data (create_norma_received w))
    as (evs & Htr & Hno).
  destruct (create_norma_instance data _) as [[nv|e] w1]; simpl in *.
  - destruct (to_dict T nv) as [nd|e] eqn:Hd.
    + destruct (tree T nv) as [tr|e] eqn:Ht.
      * destruct (get_urn T nv) as [u|e] eqn:Hg; right;
          exists nv, nd, tr; rewrite Hh; (repeat split; rewrite ?Hg; try done);
          erewrite new_events_app
            by (simpl; rewrite Htr; norm_trace; reflexivity);
          cbn [List.filter]; rewrite ?List.filter_app, ?Hno; reflexivity.
      * left. split; [done|]. split; [|by eexists].
        erewrite new_events_app
          by (simpl; rewrite Htr; norm_trace; reflexivity).
        cbn [List.filter]. rewrite ?List.filter_app, ?Hno. reflexivity.
    + left. split; [done|]. split; [|by eexists].
      erewrite new_events_app
        by (simpl; rewrite Htr; norm_trace; reflexivity).
      cbn [List.filter]. rewrite ?List.filter_app, ?Hno. reflexivity.
  - left. split; [done|]. split; [|by eexists].
    erewrite new_events_app
      by (simpl; rewrite Htr; norm_trace; reflexivity).
    cbn [List.filter]. rewrite ?List.filter_app, ?Hno. reflexivity.
Qed.

End CreateNormaFacts.

(** X1.  The append to the history and its log line go together, and they
    come before the identifier is derived.  Either [create_norma] appends
    nothing, logs no append and answers with an error; or it appends exactly
    the reference returned by [create_norma_instance], for which [to_dict]
    and [tree] have returned, logs the append once, and answers with the
    data, the tree and the identifier of that reference, unless [get_urn]
    raises: then the answer is that error, and the reference stays in the
    history. *)
Theorem X1_create_norma_appends_to_history {Ext Driver Tree : Type}
  (T : @Tools Ext Driver Tree) (data : dict) (w : World) :
  let (r, w') := create_norma T data w in
  (history w' = history w /\
   List.filter is_appended (new_events w w') = [] /\
   exists msg, r = Ok (JsonError msg)) \/
  (exists nv norma_data tr,
     fst (create_norma_instance data (create_norma_received w)) = Ok nv /\
     to_dict T nv = Ok norma_data /\ tree T nv = Ok tr /\
     history w' = (history w ++ [nv])%list /\
     length (List.filter is_appended (new_events w w')) = 1%nat /\
     r = Ok (match get_urn T nv with
             | Ok u => JsonNorma norma_data tr u
             | Raise e => JsonError (str_exn e)
             end)).
Proof. apply create_norma_ledger. Qed.

(** An error response with the history grown: the identifier cannot be
    derived. *)
Example create_norma_fails_after_the_append :
  let (r, w') := create_norma tools_no_urn Demo.request_norma Demo.world0 in
  r = Ok (JsonError "no identifier") /\ length (history w') = 1%nat.
Proof. vm_compute. done. Qed.

(** X2.  A repeated resolution is answered from the cache but still
    recorded: when [create_norma] has answered a request, a second request
    with the same fields, in whatever order, made before the entry expires
    gets the same answer without [create_norma_instance] running again (the
    only events are the two log lines of the handler), and the history gets
    a second entry for the same reference. *)
Theorem X2_create_norma_repeated {Ext Driver Tree : Type}
  (T : @Tools Ext Driver Tree) (w w1 : World) (data1 data2 : dict)
  (norma_data : dict) (tr : Tree) (u : string) :
  configured w ->
  data1 ≡ₚ data2 ->
  create_norma T data1 w = (Ok (JsonNorma norma_data tr u), w1) ->
  exists (nv : NormaVisitata) (expires : Z),
    history w1 = (history w ++ [nv])%list /\
    clock (env w1) < expires /\
    forall e' : Env,
      clock e' < expires ->
      exists w2,
        create_norma T data2 (with_env e' w1)
          = (Ok (JsonNorma norma_data tr u), w2) /\
        new_events (with_env e' w1) w2 =
          [Log INFO "Received data for create_norma: {data}";
           Log INFO "Appended NormaVisitata to history. Current history size: {len(history)}"] /\
        history w2 = (history w1 ++ [nv])%list.
Proof.
  intros (Hmax & Httl & _) Hperm Hrun.
  rewrite create_norma_run in Hrun.
  pose proof (create_norma_instance_frame data1 (create_norma_received w))
    as (_ & Hh & _).
  unfold create_norma_instance in *.
  destruct (cached norma_cache_lens (convert_to_hashable data1)
              (create_norma_instance__wrapped data1) (create_norma_received w))
    as [[nv|e] w1'] eqn:Hc; [|by simplify_eq].
  assert (1 <= TTL.maxsize (view norma_cache_lens (create_norma_received w)))%nat
    as Hm by (simpl; lia).
  assert (0 < TTL.ttl (view norma_cache_lens (create_norma_received w)))
    as Ht by (simpl; lia).
  destruct (cached_entry _ _ _ _ _ _ norma_cache_lens_ok
              (create_norma_instance_leaves_cache data1) Hm Ht Hc)
    as (expires & Hf & Hlt).
  destruct (to_dict T nv) as [nd|e] eqn:Hdict; [|by simplify_eq].
  destruct (tree T nv) as [tr'|e] eqn:Htree; [|by simplify_eq].
  destruct (get_urn T nv) as [u'|e] eqn:Hurn; [|by simplify_eq].
  simplify_eq/=. exists nv, expires. rewrite Hh. split; [done|]. split; [done|].
  intros e' He'. rewrite create_norma_run. unfold create_norma_instance.
  rewrite <- (convert_to_hashable_perm data1 data2 Hperm).
  erewrite cached_live_entry; [|exact Hf|exact He'].
  rewrite Hdict, Htree, Hurn.
  eexists. split; [reflexivity|]. simpl. split; [|done].
  apply new_events_app. simpl. by norm_trace.
Qed.

(** X2 at work: the request of the examples, then its fields in another
    order. *)
Lemma X2_create_norma_repeated_witness :
  exists (nv : NormaVisitata) (expires : Z),
    history (snd (create_norma Demo.tools Demo.request_norma Demo.world0))
      = [nv] /\
    forall e' : @Env unit,
      clock e' < expires ->
      exists w2 : @World unit nat,
        fst (create_norma Demo.tools Demo.request_norma_permuted
               (with_env e'
                  (snd (create_norma Demo.tools Demo.request_norma Demo.world0))))
          = fst (create_norma Demo.tools Demo.request_norma Demo.world0) /\
        history w2 = [nv; nv].
Proof.
  destruct (X2_create_norma_repeated Demo.tools Demo.world0
              (snd (create_norma Demo.tools Demo.request_norma Demo.world0))
              Demo.request_norma Demo.request_norma_permuted
              [] tt EmptyString)
    as (nv & expires & Hh & _ & Hhit).
  - repeat split; reflexivity.
  - eapply (bool_decide_unpack _). vm_compute. exact I.
  - vm_compute. reflexivity.
  - exists nv, expires. split; [exact Hh|].
    intros e' He'. destruct (Hhit e' He') as (w2 & Hrun & _ & Hh2).
    exists w2. rewrite Hrun. split; [reflexivity|].
    rewrite Hh2, Hh. reflexivity.
Defined.

(** X4.  [create_norma] needs the five fields [act_type], [date],
    [act_number], [article] and [version], which [create_norma_instance]
    reads in this order: a request whose values are strings and that lacks
    one of the five is answered with the error that names the first one
    missing, and the history is left as it was; [version_date] is not among
    them. *)
Theorem X4_create_norma_required_fields {Ext Driver Tree : Type}
  (T : @Tools Ext Driver Tree) (data : dict) (w : World) (key : string) :
  NoDup data.*1 ->
  norma_cache_ok w ->
  first_missing data = Some key ->
  key <> "version_date" /\
  fst (create_norma T data w) = Ok (JsonError ("'" ++ key ++ "'")) /\
  history (snd (create_norma T data w)) = history w.
Proof.
  intros Hnd Hok Hmiss.
  assert (fst (create_norma_instance__wrapped data (create_norma_received w))
          = Raise (KeyError key) /\ key <> "version_date") as [Hraise Hkey].
  { revert Hmiss.
    unfold first_missing, required_fields, create_norma_instance__wrapped.
    unfold_M. simpl.
    destruct (dict_get "act_type" data) as [t|] eqn:Ht; simpl;
      [|by intros [= <-]].
    destruct (dict_get "date" data) as [d|] eqn:Hd; simpl;
      [|by intros [= <-]].
    destruct (dict_get "act_number" data) as [n|] eqn:Hn; simpl;
      [|by intros [= <-]].
    destruct (dict_get "article" data) as [a|] eqn:Ha; simpl;
      [|by intros [= <-]].
    destruct (dict_get "version" data) as [v|] eqn:Hv; simpl;
      [done|by intros [= <-]]. }
  split; [done|].
  destruct (create_norma_instance_result data (create_norma_received w) Hnd Hok)
    as [Hres _].
  rewrite Hraise in Hres.
  pose proof (create_norma_instance_frame data (create_norma_received w))
    as (_ & Hh & _).
  rewrite create_norma_run.
  destruct (create_norma_instance data (create_norma_received w))
    as [[nv|e] w1]; simpl in *; [done|].
  by injection Hres as ->.
Qed.

(** X4 at work: a request without the act type. *)
Lemma X4_create_norma_required_fields_witness :
  fst (create_norma Demo.tools DemoStates.request_incomplete Demo.world0)
    = Ok (JsonError "'act_type'").
Proof.
  refine (proj1 (proj2 (X4_create_norma_required_fields Demo.tools
            DemoStates.request_incomplete Demo.world0 "act_type" _ _ _))).
  - eapply (bool_decide_unpack _). vm_compute. exact I.
  - intros l Hin. destruct Hin.
  - reflexivity.
Defined.

(** ** Requests that lack a field, and the other edges of the handlers *)

(** X5.  A request without the field a handler reads is answered with an
    error that names the field, and nothing but the trace changes: no cache
    is consulted and no collaborator called ([export_pdf] still closes the
    driver, see C5).  This is so for a missing [urn] in [extract_article],
    [brocardi_info] and [export_pdf], and for a missing [article] in
    [extract_article]. *)
Theorem X5_missing_field_is_reported {Ext Driver Tree : Type}
  (T : @Tools Ext Driver Tree) (data : dict) (w : World) :
  (dict_get "urn" data = None ->
   extract_article T data w =
     (Ok (JsonError "'urn'"),
      with_trace (trace w ++ [Log INFO "Received data for extract_article: {data}";
                              Log ERROR "Error in extract_article: {e}"]) w) /\
   brocardi_info T data w =
     (Ok (JsonError "'urn'"),
      with_trace (trace w ++ [Log INFO "Received data for brocardi_info: {data}";
                              Log ERROR "Error in brocardi_info: {e}"]) w) /\
   export_pdf T data w =
     (Ok (JsonError "'urn'"),
      with_drivers []
        (with_trace (trace w ++ [Log ERROR "Error in export_pdf: {e}";
                                 CallCloseDriver; Log INFO "Driver closed"]) w))) /\
  (forall u, dict_get "urn" data = Some u ->
   dict_get "article" data = None ->
   extract_article T data w =
     (Ok (JsonError "'article'"),
      with_trace (trace w ++ [Log INFO "Received data for extract_article: {data}";
                              Log ERROR "Error in extract_article: {e}"]) w)).
Proof.
  split.
  - intros Hu. unfold extract_article, brocardi_info, export_pdf. unfold_M.
    rewrite Hu. simpl. unfold with_trace, with_drivers. simpl.
    repeat rewrite <- app_assoc. simpl. done.
  - intros u Hu Ha. unfold extract_article. unfold_M. rewrite Hu, Ha. simpl.
    unfold with_trace. simpl. repeat rewrite <- app_assoc. simpl. done.
Qed.

(** X5 at work. *)
Lemma X5_missing_field_is_reported_witness :
  fst (extract_article Demo.tools DemoStates.request_incomplete Demo.world0)
    = Ok (JsonError "'urn'") /\
  fst (extract_article Demo.tools Demo.request_urn Demo.world0)
    = Ok (JsonError "'article'").
Proof.
  destruct (X5_missing_field_is_reported Demo.tools
              DemoStates.request_incomplete Demo.world0) as [Hurn _].
  destruct (X5_missing_field_is_reported Demo.tools
              Demo.request_urn Demo.world0) as [_ Hart].
  split.
  - destruct (Hurn eq_refl) as [-> _]. reflexivity.
  - rewrite (Hart "urn:nir:stato:costituzione" eq_refl eq_refl). reflexivity.
Defined.

(** X6.  An empty article designator never reaches the extraction: the
    request calls no collaborator and leaves the environment as it is, and
    unless the cache already holds a text for the key the answer is the
    empty text. *)
Theorem X6_empty_article_is_not_extracted {Ext Driver Tree : Type}
  (T : @Tools Ext Driver Tree) (data : dict) (w : World) (u : string) :
  dict_get "urn" data = Some u ->
  dict_get "article" data = Some EmptyString ->
  let w' := snd (extract_article T data w) in
  existsb is_extraction (new_events w w') = false /\
  env w' = env w /\
  (TTL.live (clock (env w))
            (mkNorma "costituzione" None None (Some u), EmptyString)
            (article_cache w) = None ->
   fst (extract_article T data w) = Ok (JsonResult EmptyString)).
Proof.
  intros Hu Ha. unfold extract_article, extract_article_text.
  unfold_M. rewrite Hu, Ha. simpl.
  match goal with
  | |- context [cached ?L ?k ?f ?w0] =>
      destruct (TTL.live (clock (env w0)) k (view L w0)) as [v|] eqn:Hlive;
      [rewrite (cached_hit L k f w0 v Hlive)
      |rewrite (cached_miss L k f w0 Hlive)]
  end.
  - simpl. split; [|split; [done|]].
    + erewrite new_events_app by (simpl; norm_trace; reflexivity). done.
    + simpl in Hlive. intros Hno. congruence.
  - unfold compute_and_store, extract_article_text__wrapped, store_step.
    unfold_M. simpl. split; [|split; [done|done]].
    erewrite new_events_app by (simpl; norm_trace; reflexivity). done.
Qed.

(** X6 at work. *)
Lemma X6_empty_article_is_not_extracted_witness :
  fst (extract_article Demo.tools
         [("urn", "urn:nir:stato:costituzione"); ("article", EmptyString)]
         Demo.world0)
  = Ok (JsonResult EmptyString).
Proof.
  refine (proj2 (proj2 (X6_empty_article_is_not_extracted Demo.tools
            [("urn", "urn:nir:stato:costituzione"); ("article", EmptyString)]
            Demo.world0 "urn:nir:stato:costituzione" _ _)) _);
    reflexivity.
Defined.

(** ** The commentary cache *)

(** X7.  The commentary is cached under the identifier: when
    [brocardi_info] has answered a request, the scraper's result is in the
    cache under the [urn] of the request, the answer is that result, or
    nothing if its position is empty, and until the entry expires a second
    request for the same [urn] gets the same answer without the scraper
    being called: its only event is the line logged on receipt. *)
Theorem X7_brocardi_info_cached {Ext Driver Tree : Type}
  (T : @Tools Ext Driver Tree) (w w1 : World) (data1 data2 : dict)
  (answer : option brocardi_result) :
  configured w ->
  dict_get "urn" data1 = dict_get "urn" data2 ->
  brocardi_info T data1 w = (Ok (JsonBrocardi answer), w1) ->
  exists (u : string) (r : brocardi_result) (expires : Z),
    dict_get "urn" data1 = Some u /\
    TTL.find_link u (TTL.links (brocardi_cache w1))
      = Some (TTL.Link u r expires) /\
    answer = (if falsy (position r) then None else Some r) /\
    clock (env w1) < expires /\
    forall e' : Env,
      clock e' < expires ->
      exists w2,
        brocardi_info T data2 (with_env e' w1) = (Ok (JsonBrocardi answer), w2) /\
        env w2 = e' /\
        new_events (with_env e' w1) w2 =
          [Log INFO "Received data for brocardi_info: {data}"].
Proof.
  intros Hconf Hurn Hrun.
  destruct Hconf as (_ & _ & _ & _ & Hmax & Httl).
  unfold brocardi_info in Hrun. unfold_M.
  destruct (dict_get "urn" data1) as [u|] eqn:Hu; [|by simplify_eq/=].
  simpl in Hrun. unfold get_brocardi_information in Hrun.
  match type of Hrun with
  | context [cached ?L ?k ?f ?w0] =>
      assert (1 <= TTL.maxsize (view L w0))%nat as Hm by (simpl; lia);
      assert (0 < TTL.ttl (view L w0)) as Ht by (simpl; lia);
      destruct (cached L k f w0) as [[r|e] w'] eqn:Hc; [|by simplify_eq/=];
      destruct (cached_entry L k f w0 r w' brocardi_cache_lens_ok
                  (get_brocardi_information_leaves_cache T u) Hm Ht Hc)
        as (expires & Hf & Hlt)
  end.
  simplify_eq/=. exists u, r, expires. repeat split; try done.
  intros e' He'. unfold brocardi_info. unfold_M.
  rewrite <- Hurn. simpl. unfold get_brocardi_information.
  erewrite cached_live_entry; [|exact Hf|exact He'].
  eexists. split; [reflexivity|]. split; [done|].
  by apply new_events_app.
Qed.

(** X7 at work. *)
Lemma X7_brocardi_info_cached_witness :
  exists (u : string) (r : brocardi_result) (expires : Z),
    dict_get "urn" Demo.request_urn = Some u /\
    forall e' : @Env unit,
      clock e' < expires ->
      exists w2 : @World unit nat,
        brocardi_info Demo.tools Demo.request_urn
          (with_env e' (snd (brocardi_info Demo.tools Demo.request_urn Demo.world0)))
        = (Ok (JsonBrocardi (Some r)), w2) /\
        env w2 = e'.
Proof.
  destruct (X7_brocardi_info_cached Demo.tools Demo.world0
              (snd (brocardi_info Demo.tools Demo.request_urn Demo.world0))
              Demo.request_urn Demo.request_urn
              (Some (mkBrocardi "1" "ratio" "href")))
    as (u & r & expires & Hu & _ & _ & _ & Hhit).
  - repeat split; reflexivity.
  - reflexivity.
  - vm_compute. reflexivity.
  - exists u, (mkBrocardi "1" "ratio" "href"), expires. split; [exact Hu|].
    intros e' He'. destruct (Hhit e' He') as (w2 & Hrun & Henv & _).
    exists w2. split; assumption.
Defined.

(** ** The edges of [export_pdf] *)

(** X8.  An identifier for which no file name can be derived is refused
    before anything is touched: the answer is the error "Invalid URN", no
    driver is set up, the renderer is not called, no file is looked for or
    renamed, and the environment is left as it is. *)
Theorem X8_export_pdf_invalid_urn {Ext Driver Tree : Type}
  (T : @Tools Ext Driver Tree) (data : dict) (w : World) (u : string) :
  dict_get "urn" data = Some u ->
  falsy (urn_to_filename T u) = true ->
  export_pdf T data w =
    (Ok (JsonError "Invalid URN"),
     with_drivers []
       (with_trace
          (trace w ++ [Log INFO "Received data for export_pdf: {urn}";
                       Log ERROR "Error in export_pdf: {e}";
                       CallCloseDriver; Log INFO "Driver closed"]) w)).
Proof.
  intros Hu Hname. unfold export_pdf. unfold_M. rewrite Hu. simpl.
  rewrite Hname. simpl. unfold with_trace, with_drivers. simpl.
  repeat rewrite <- app_assoc. simpl. done.
Qed.

(** X8 at work: the empty identifier. *)
Lemma X8_export_pdf_invalid_urn_witness :
  fst (export_pdf Demo.tools [("urn", EmptyString)] Demo.world0)
    = Ok (JsonError "Invalid URN").
Proof.
  rewrite (X8_export_pdf_invalid_urn Demo.tools [("urn", EmptyString)]
             Demo.world0 EmptyString eq_refl eq_refl).
  reflexivity.
Defined.

(** X9.  What [export_pdf] renames is what the renderer returned.  A
    request renames at most once, right after its one call of the renderer:
    the renderer was called for the identifier of the request and returned
    a non-empty path [dst], and the rename moves the file of that name in
    the download directory, [os.path.join(os.getcwd(), "download", dst)],
    to [dst] itself.  The events of such a request are the two log lines,
    the driver set-up if the slot was empty, the render, the rename, the
    line that reports the success or the failure of the rename, and the
    release. *)
Theorem X9_export_pdf_rename {Ext Driver Tree : Type}
  (T : @Tools Ext Driver Tree) (data : dict) (w : World) (src dst : string) :
  let w' := snd (export_pdf T data w) in
  In (CallRename src dst) (new_events w w') ->
  exists (d : Driver) (u : string) (e1 e2 : Env) (outcome : event),
    dict_get "urn" data = Some u /\
    extract_pdf T d u e1 = (Ok dst, e2) /\
    falsy dst = false /\
    src = os_path_join (cwd T) ["download"; dst] /\
    new_events w w' =
      ([Log INFO "Received data for export_pdf: {urn}";
        Log INFO "PDF {filename} path: {pdf_path}"] ++
       match drivers w with [] => [CallSetupDriver] | _ :: _ => [] end ++
       [CallExtractPdf d u; CallRename src dst; outcome] ++
       [CallCloseDriver; Log INFO "Driver closed"])%list /\
    (outcome = Log INFO "PDF {filename} generated and saved: {pdf_path}" \/
     outcome = Log ERROR "Error in export_pdf: {e}").
Proof.
  intros w'. unfold w', export_pdf. unfold_M.
  step_M;
    match goal with
    | |- context [new_events ?a ?b] =>
        erewrite !(new_events_app a b) by (simpl; norm_trace; reflexivity)
    end; simpl; intros Hin;
    repeat (destruct Hin as [Hin|Hin]; [try discriminate Hin|]);
    try (by destruct Hin);
    injection Hin as <- <-;
    do 5 eexists; (split; [reflexivity|]); (split; [eassumption|]);
    (split; [done|]); (split; [done|]);
    (split; [reflexivity|]); first [by left | by right].
Qed.

(** X9 at work: the renderer that returns a bare name. *)
Lemma X9_export_pdf_rename_witness :
  exists (d : nat) (u : string) (e1 e2 : @Env unit),
    extract_pdf Demo.tools_relative d u e1
      = (Ok "urn:nir:stato:costituzione.pdf", e2) /\
    "/srv/download/urn:nir:stato:costituzione.pdf"
      = os_path_join (cwd Demo.tools_relative)
          ["download"; "urn:nir:stato:costituzione.pdf"].
Proof.
  destruct (X9_export_pdf_rename Demo.tools_relative Demo.request_urn
              Demo.world0
              "/srv/download/urn:nir:stato:costituzione.pdf"
              "urn:nir:stato:costituzione.pdf")
    as (d & u & e1 & e2 & outcome & _ & Hrender & _ & Hsrc & _).
  - vm_compute. right. right. right. right. left. reflexivity.
  - exists d, u, e1, e2. split; assumption.
Defined.

(** X10.  A renderer that returns nothing makes the export fail with
    "Error generating PDF": nothing is renamed, and the handle set up for
    the request is closed again. *)
Theorem X10_export_pdf_empty_render {Ext Driver Tree : Type}
  (T : @Tools Ext Driver Tree) (data : dict) (w : World) (u p : string)
  (d : Driver) (e1 e2 : Env) :
  dict_get "urn" data = Some u ->
  falsy (urn_to_filename T u) = false ->
  derived_path T u ∉ files (env w) ->
  drivers w = [] ->
  new_driver T (env w) = (Ok d, e1) ->
  extract_pdf T d u e1 = (Ok p, e2) ->
  falsy p = true ->
  let (r, w') := export_pdf T data w in
  r = Ok (JsonError "Error generating PDF") /\
  new_events w w' =
    [Log INFO "Received data for export_pdf: {urn}";
     Log INFO "PDF {filename} path: {pdf_path}";
     CallSetupDriver; CallExtractPdf d u;
     Log ERROR "Error in export_pdf: {e}";
     CallCloseDriver; Log INFO "Driver closed"] /\
  env w' = e2 /\ drivers w' = [].
Proof.
  intros Hu Hname Hfile Hd Hnew Hrender Hp. unfold derived_path in Hfile.
  unfold export_pdf. unfold_M. rewrite Hu. cbn [fst snd]. cbv beta iota.
  cbn [trace env drivers with_trace]. rewrite Hname. cbv beta iota.
  cbn [trace env drivers with_trace].
  rewrite bool_decide_eq_false_2 by done. cbn [negb]. cbv beta iota.
  cbn [trace env drivers with_trace with_drivers with_env]. rewrite Hd.
  cbv beta iota. cbn [trace env drivers with_trace with_drivers with_env].
  rewrite Hnew. cbv beta iota.
  cbn [trace env drivers with_trace with_drivers with_env].
  rewrite Hrender. cbv beta iota. rewrite Hp. cbv beta iota.
  cbn [trace env drivers with_trace with_drivers with_env str_exn].
  split; [done|]. split; [|done].
  apply new_events_app. cbn [trace]. by repeat rewrite <- app_assoc.
Qed.

(** X10 at work: a renderer that returns the empty path. *)
Lemma X10_export_pdf_empty_render_witness :
  fst (export_pdf tools_empty_render Demo.request_urn Demo.world0)
    = Ok (JsonError "Error generating PDF").
Proof.
  pose proof (X10_export_pdf_empty_render tools_empty_render
                Demo.request_urn Demo.world0
                "urn:nir:stato:costituzione" EmptyString 1%nat
                Demo.env0 (Demo.tick Demo.env0)
                eq_refl eq_refl) as H.
  destruct (export_pdf tools_empty_render Demo.request_urn Demo.world0)
    as [r w'].
  apply H; try reflexivity.
  eapply (bool_decide_unpack _). vm_compute. exact I.
Defined.
(** ** What a handler leaves alone *)

Section FrameFacts.
Context {Ext Driver Tree : Type} (T : @Tools Ext Driver Tree).
Implicit Types (w : @World Ext Driver) (data : dict).

Lemma create_norma_frame data w :
  let w' := snd (create_norma T data w) in
  env w' = env w /\ drivers w' = drivers w /\
  article_cache w' = article_cache w /\ brocardi_cache w' = brocardi_cache w.
Proof.
  rewrite create_norma_run.
  pose proof (create_norma_instance_frame data (create_norma_received w))
    as (He & _ & Hd & Ha & Hb).
  destruct (create_norma_instance data _) as [[nv|e] w1]; [|done].
  destruct (to_dict T nv); [|done]. destruct (tree T nv); [|done].
  by destruct (get_urn T nv).
Qed.

Lemma extract_article_frame data w :
  let w' := snd (extract_article T data w) in
  history w' = history w /\ drivers w' = drivers w /\
  norma_cache w' = norma_cache w /\ brocardi_cache w' = brocardi_cache w.
Proof.
  unfold extract_article, extract_article_text, cached, lookup_step,
    store_step, extract_article_text__wrapped. unfold_M. by step_M.
Qed.

Lemma brocardi_info_frame data w :
  let w' := snd (brocardi_info T data w) in
  history w' = history w /\ drivers w' = drivers w /\
  norma_cache w' = norma_cache w /\ article_cache w' = article_cache w.
Proof.
  unfold brocardi_info, get_brocardi_information, cached, lookup_step,
    store_step, get_brocardi_information__wrapped. unfold_M. by step_M.
Qed.

Lemma get_history_frame w :
  let w' := snd (get_history T w) in
  env w' = env w /\ history w' = history w /\ drivers w' = drivers w /\
  norma_cache w' = norma_cache w /\ article_cache w' = article_cache w /\
  brocardi_cache w' = brocardi_cache w.
Proof.
  unfold get_history. unfold_M. simpl.
  by destruct (map_result (to_dict T) (history w)).
Qed.

Lemma export_pdf_frame data w :
  let w' := snd (export_pdf T data w) in
  history w' = history w /\ norma_cache w' = norma_cache w /\
  article_cache w' = article_cache w /\ brocardi_cache w' = brocardi_cache w.
Proof. unfold export_pdf. unfold_M. by step_M. Qed.

End FrameFacts.

(** X11.  Each handler keeps to its own part of the state.  Only
    [create_norma] changes the history, and it leaves the environment, the
    driver slot and the two other caches alone; [extract_article] and
    [brocardi_info] write to no cache but their own and touch neither the
    history nor the driver slot; [get_history] changes nothing but the
    log; [export_pdf] leaves the history and the three caches alone. *)
Theorem X11_handlers_keep_to_their_state {Ext Driver Tree : Type}
  (T : @Tools Ext Driver Tree) (rq : request) (w : World) :
  let w' := snd (handle T rq w) in
  match rq with
  | CreateNorma _ =>
      env w' = env w /\ drivers w' = drivers w /\
      article_cache w' = article_cache w /\
      brocardi_cache w' = brocardi_cache w
  | ExtractArticle _ =>
      history w' = history w /\ drivers w' = drivers w /\
      norma_cache w' = norma_cache w /\ brocardi_cache w' = brocardi_cache w
  | BrocardiInfo _ =>
      history w' = history w /\ drivers w' = drivers w /\
      norma_cache w' = norma_cache w /\ article_cache w' = article_cache w
  | GetHistory =>
      env w' = env w /\ history w' = history w /\ drivers w' = drivers w /\
      norma_cache w' = norma_cache w /\ article_cache w' = article_cache w /\
      brocardi_cache w' = brocardi_cache w
  | ExportPdf _ =>
      history w' = history w /\ norma_cache w' = norma_cache w /\
      article_cache w' = article_cache w /\
      brocardi_cache w' = brocardi_cache w
  end.
Proof.
  destruct rq as [data|data|data| |data]; simpl.
  - apply (create_norma_frame T data w).
  - apply (extract_article_frame T data w).
  - apply (brocardi_info_frame T data w).
  - apply (get_history_frame T w).
  - apply (export_pdf_frame T data w).
Qed.

(** X12.  No exception escapes [create_norma], [extract_article],
    [brocardi_info] and [get_history]: their whole body runs inside
    [try ... except Exception], so whatever fields the request has and whether
    the collaborators they call return or raise, each of them returns a
    response.  ([export_pdf] is not among them: its release of the driver
    runs in [finally], outside the [except].) *)
Theorem X12_handlers_always_answer {Ext Driver Tree : Type}
  (T : @Tools Ext Driver Tree) (data : dict) (w : World) :
  (exists resp : response, fst (create_norma T data w) = Ok resp) /\
  (exists resp : response, fst (extract_article T data w) = Ok resp) /\
  (exists resp : response, fst (brocardi_info T data w) = Ok resp) /\
  (exists resp : response, fst (get_history T w) = Ok resp).
Proof.
  repeat split.
  - rewrite create_norma_response. eauto.
  - unfold extract_article. unfold_M. step_M; eauto.
  - unfold brocardi_info. unfold_M. step_M; eauto.
  - unfold get_history. unfold_M. simpl.
    destruct (map_result (to_dict T) (history w)); simpl; eauto.
Qed.
(** ** The size of the caches *)

Section CapacityFacts.
Context {K V : Type} `{EqDecision K}.
Implicit Types (k : K) (c : TTL.TTLCache K V) (ls : list (TTL.link K V)).

Lemma filter_other_key_length k ls :
  (length (List.filter (TTL.other_key k) ls) <= length ls)%nat.
Proof.
  induction ls as [|l ls IH]; simpl; [lia|].
  destruct (TTL.other_key k l); simpl; lia.
Qed.

Lemma filter_other_key_found k ls l :
  TTL.find_link k ls = Some l ->
  (length (List.filter (TTL.other_key k) ls) < length ls)%nat.
Proof.
  unfold TTL.find_link, TTL.other_key.
  induction ls as [|l0 ls IH]; simpl; [done|].
  destruct (TTL.has_key k l0); simpl.
  - intros _. pose proof (filter_other_key_length k ls) as Hle.
    unfold TTL.other_key in Hle. lia.
  - intros Hf. specialize (IH Hf). lia.
Qed.

Lemma expire_length now ls : (length (TTL.expire now ls) <= length ls)%nat.
Proof.
  unfold TTL.expire. induction ls as [|l ls IH]; simpl; [lia|].
  destruct (bool_decide _); simpl; lia.
Qed.

Lemma getitem_within_capacity now k c :
  within_capacity c -> within_capacity (snd (TTL.getitem now k c)).
Proof.
  unfold within_capacity. rewrite getitem_links, getitem_maxsize.
  unfold TTL.move_to_end.
  destruct (TTL.find_link k (TTL.links c)) as [l|] eqn:Hf; [|done].
  apply filter_other_key_found in Hf. rewrite length_app. simpl. lia.
Qed.

Lemma setitem_within_capacity now k v c :
  within_capacity c -> within_capacity (TTL.setitem now k v c).
Proof.
  unfold within_capacity. rewrite setitem_maxsize. unfold TTL.setitem.
  pose proof (expire_length now (TTL.links c)) as Hexp.
  destruct (bool_decide (TTL.maxsize c < 1)%nat) eqn:Hm; simpl; [lia|].
  apply bool_decide_eq_false in Hm. intros Hc. rewrite length_app. simpl.
  destruct (TTL.find_link k (TTL.expire now (TTL.links c))) as [l|] eqn:Hf.
  - apply filter_other_key_found in Hf. lia.
  - match goal with
    | |- context [List.filter _ ?ls2] =>
        pose proof (filter_other_key_length k ls2) as Hle
    end.
    rewrite length_drop in Hle. lia.
Qed.

End CapacityFacts.

Section CachedCapacity.
Context {Ext Driver : Type} {K V : Type} `{EqDecision K}.
Implicit Types (L : @lens Ext Driver K V) (k : K) (w : @World Ext Driver).

(** An invariant of the cache that lookups and stores keep is kept by the
    wrapper. *)
Lemma cached_preserves (P : TTL.TTLCache K V -> Prop) L k (func : M V) w :
  (forall now k c, P c -> P (snd (TTL.getitem now k c))) ->
  (forall now k v c, P c -> P (TTL.setitem now k v c)) ->
  lens_ok L -> leaves_cache L func ->
  P (view L w) -> P (view L (snd (cached L k func w))).
Proof.
  intros Hget Hset HL Hleave HP.
  assert (P (view L (after_lookup L k w))) as HP'.
  { unfold after_lookup. rewrite (view_over L HL). by apply Hget. }
  destruct (TTL.live (clock (env w)) k (view L w)) as [v|] eqn:Hlive.
  - by rewrite (cached_hit L k func w v Hlive).
  - rewrite (cached_miss L k func w Hlive). unfold compute_and_store, bind.
    pose proof (Hleave (after_lookup L k w)) as Hsame.
    destruct (func (after_lookup L k w)) as [[v|e] w1]; simpl in *.
    + rewrite (view_over L HL). apply Hset. by rewrite Hsame.
    + by rewrite Hsame.
Qed.

End CachedCapacity.

Section SessionCapacity.
Context {Ext Driver Tree : Type} (T : @Tools Ext Driver Tree).
Implicit Types (w : @World Ext Driver) (data : dict).

Lemma cache_inv_getitem {K V} `{EqDecision K} now (k : K)
  (c : TTL.TTLCache K V) :
  cache_inv c -> cache_inv (snd (TTL.getitem now k c)).
Proof.
  intros (Hm & Ht & Hc). unfold cache_inv.
  rewrite getitem_maxsize, getitem_ttl.
  split; [done|]. split; [done|]. by apply getitem_within_capacity.
Qed.

Lemma cache_inv_setitem {K V} `{EqDecision K} now (k : K) (v : V)
  (c : TTL.TTLCache K V) :
  cache_inv c -> cache_inv (TTL.setitem now k v c).
Proof.
  intros (Hm & Ht & Hc). unfold cache_inv.
  rewrite setitem_maxsize, setitem_ttl.
  split; [done|]. split; [done|]. by apply setitem_within_capacity.
Qed.

Lemma create_norma_cache_inv data w :
  cache_inv (norma_cache w) ->
  cache_inv (norma_cache (snd (create_norma T data w))).
Proof.
  intros Hinv. rewrite create_norma_cache. unfold create_norma_instance.
  apply (cached_preserves cache_inv norma_cache_lens);
    [apply @cache_inv_getitem|apply @cache_inv_setitem
    |apply norma_cache_lens_ok|apply create_norma_instance_leaves_cache|done].
Qed.

Lemma extract_article_cache_inv data w :
  cache_inv (article_cache w) ->
  cache_inv (article_cache (snd (extract_article T data w))).
Proof.
  intros Hinv. unfold extract_article. unfold_M.
  destruct (dict_get "urn" data) as [u|]; simpl; [|done].
  destruct (dict_get "article" data) as [a|]; simpl; [|done].
  match goal with
  | |- context [extract_article_text T ?n ?a ?w0] =>
      pose proof (cached_preserves cache_inv article_cache_lens (n, a)
                    (extract_article_text__wrapped T n a) w0
                    (@cache_inv_getitem _ _ _) (@cache_inv_setitem _ _ _)
                    article_cache_lens_ok
                    (extract_article_text_leaves_cache T n a) Hinv) as Hc;
      fold (extract_article_text T n a) in Hc;
      destruct (extract_article_text T n a w0) as [[t|e] w1]
  end; exact Hc.
Qed.

Lemma brocardi_info_cache_inv data w :
  cache_inv (brocardi_cache w) ->
  cache_inv (brocardi_cache (snd (brocardi_info T data w))).
Proof.
  intros Hinv. unfold brocardi_info. unfold_M.
  destruct (dict_get "urn" data) as [u|]; simpl; [|done].
  match goal with
  | |- context [get_brocardi_information T ?u ?w0] =>
      pose proof (cached_preserves cache_inv brocardi_cache_lens u
                    (get_brocardi_information__wrapped T u) w0
                    (@cache_inv_getitem _ _ _) (@cache_inv_setitem _ _ _)
                    brocardi_cache_lens_ok
                    (get_brocardi_information_leaves_cache T u) Hinv) as Hc;
      fold (get_brocardi_information T u) in Hc;
      destruct (get_brocardi_information T u w0) as [[t|e] w1]
  end; exact Hc.
Qed.

(** Every request keeps the three caches as configured and within their
    size. *)
Lemma handle_cache_inv rq w :
  cache_inv (norma_cache w) /\ cache_inv (article_cache w) /\
  cache_inv (brocardi_cache w) ->
  let w' := snd (handle T rq w) in
  cache_inv (norma_cache w') /\ cache_inv (article_cache w') /\
  cache_inv (brocardi_cache w').
Proof.
  intros (Hn & Ha & Hb).
  destruct rq as [data|data|data| |data]; cbv zeta; unfold handle.
  - pose proof (create_norma_frame T data w) as (_ & _ & Ha' & Hb').
    cbv zeta in Ha', Hb'. rewrite Ha', Hb'.
    split; [by apply create_norma_cache_inv|done].
  - pose proof (extract_article_frame T data w) as (_ & _ & Hn' & Hb').
    cbv zeta in Hn', Hb'. rewrite Hn', Hb'.
    split; [done|]. split; [by apply extract_article_cache_inv|done].
  - pose proof (brocardi_info_frame T data w) as (_ & _ & Hn' & Ha').
    cbv zeta in Hn', Ha'. rewrite Hn', Ha'.
    split; [done|]. split; [done|by apply brocardi_info_cache_inv].
  - pose proof (get_history_frame T w) as (_ & _ & _ & Hn' & Ha' & Hb').
    cbv zeta in Hn', Ha', Hb'. by rewrite Hn', Ha', Hb'.
  - pose proof (export_pdf_frame T data w) as (_ & Hn' & Ha' & Hb').
    cbv zeta in Hn', Ha', Hb'. by rewrite Hn', Ha', Hb'.
Qed.

Lemma serve_cache_inv session : forall w,
  cache_inv (norma_cache w) /\ cache_inv (article_cache w) /\
  cache_inv (brocardi_cache w) ->
  let w' := snd (serve T session w) in
  cache_inv (norma_cache w') /\ cache_inv (article_cache w') /\
  cache_inv (brocardi_cache w').
Proof.
  induction session as [|[e rq] session IH]; intros w Hinv; [done|].
  simpl. pose proof (handle_cache_inv rq (with_env e w) Hinv) as H1.
  destruct (handle T rq (with_env e w)) as [r w1]. simpl in H1.
  specialize (IH w1 H1). by destruct (serve T session w1) as [rs w2].
Qed.

End SessionCapacity.

(** X13.  The caches never outgrow their size: after any sequence of
    requests served from the start of the application, whatever happens in
    the environment in between, each of the three caches still has the
    configuration it was created with and holds at most 100 entries. *)
Theorem X13_caches_never_outgrow_their_size {Ext Driver Tree : Type}
  (T : @Tools Ext Driver Tree) (session : list (Env * request)) (e : Env) :
  let w' := snd (serve T session (initial e)) in
  configured w' /\
  (length (TTL.links (norma_cache w')) <= 100)%nat /\
  (length (TTL.links (article_cache w')) <= 100)%nat /\
  (length (TTL.links (brocardi_cache w')) <= 100)%nat.
Proof.
  set (w0 := initial e : @World Ext Driver).
  assert (cache_inv (norma_cache w0) /\ cache_inv (article_cache w0) /\
          cache_inv (brocardi_cache w0)) as Hinit.
  { unfold cache_inv, within_capacity. simpl. repeat split; lia. }
  pose proof (serve_cache_inv T session w0 Hinit) as H.
  simpl in *. destruct H as ((Hm1 & Ht1 & Hc1) & (Hm2 & Ht2 & Hc2) & Hm3 & Ht3 & Hc3).
  unfold configured, within_capacity in *.
  rewrite Hm1 in Hc1. rewrite Hm2 in Hc2. rewrite Hm3 in Hc3.
  repeat split; done.
Qed.
(** ** Sessions: the history and the resolution cache *)

Section SessionFacts.
Context {Ext Driver Tree : Type} (T : @Tools Ext Driver Tree).
Implicit Types (w : @World Ext Driver) (data : dict).

Lemma map_result_snoc {A B} (f : A -> result B) xs x ys y :
  map_result f xs = Ok ys -> f x = Ok y ->
  map_result f (xs ++ [x]) = Ok (ys ++ [y])%list.
Proof.
  revert ys. induction xs as [|a xs IH]; intros ys; simpl.
  - intros [= <-] ->. done.
  - destruct (f a) as [b|e]; [|done].
    destruct (map_result f xs) as [bs|e]; [|done].
    intros [= <-] Hx. by rewrite (IH bs eq_refl Hx).
Qed.

(** The other routes log no append and answer with no reference. *)
Lemma extract_article_quiet data w :
  resolved (fst (extract_article T data w)) = None /\
  exists evs,
    trace (snd (extract_article T data w)) = (trace w ++ evs)%list /\
    List.filter is_appended evs = [].
Proof.
  unfold extract_article, extract_article_text, cached, lookup_step,
    store_step, extract_article_text__wrapped. unfold_M.
  step_M; (split; [done|]); eexists; (split; [trace_ext|done]).
Qed.

Lemma brocardi_info_quiet data w :
  resolved (fst (brocardi_info T data w)) = None /\
  exists evs,
    trace (snd (brocardi_info T data w)) = (trace w ++ evs)%list /\
    List.filter is_appended evs = [].
Proof.
  unfold brocardi_info, get_brocardi_information, cached, lookup_step,
    store_step, get_brocardi_information__wrapped. unfold_M.
  step_M; (split; [done|]); eexists; (split; [trace_ext|done]).
Qed.

Lemma get_history_quiet w :
  resolved (fst (get_history T w)) = None /\
  exists evs,
    trace (snd (get_history T w)) = (trace w ++ evs)%list /\
    List.filter is_appended evs = [].
Proof.
  unfold get_history. unfold_M.
  step_M; (split; [done|]); eexists; (split; [trace_ext|done]).
Qed.

Lemma export_pdf_quiet data w :
  resolved (fst (export_pdf T data w)) = None /\
  exists evs,
    trace (snd (export_pdf T data w)) = (trace w ++ evs)%list /\
    List.filter is_appended evs = [].
Proof.
  unfold export_pdf. unfold_M.
  step_M; (split; [done|]); eexists; (split; [trace_ext|done]).
Qed.

Lemma create_norma_trace data w :
  exists evs, trace (snd (create_norma T data w)) = (trace w ++ evs)%list.
Proof.
  rewrite create_norma_run.
  destruct (create_norma_instance_trace data (create_norma_received w))
    as (evs & Htr & _).
  destruct (create_norma_instance data _) as [[nv|e] w1]; simpl in *.
  - destruct (to_dict T nv); [|eexists; simpl; rewrite Htr; trace_ext].
    destruct (tree T nv); [|eexists; simpl; rewrite Htr; trace_ext].
    destruct (get_urn T nv); eexists; simpl; rewrite Htr; trace_ext.
  - eexists. simpl. rewrite Htr. trace_ext.
Qed.

(** What a request adds to the history: as many entries as appends are
    logged, among them the reference its response carries, if it carries
    one. *)
Lemma handle_ledger rq w nds :
  map_result (to_dict T) (history w) = Ok nds ->
  let (r, w') := handle T rq w in
  exists added evs,
    map_result (to_dict T) (history w') = Ok (nds ++ added)%list /\
    trace w' = (trace w ++ evs)%list /\
    length added = length (List.filter is_appended evs) /\
    option_list (resolved r) `sublist_of` added.
Proof.
  intros Hnds.
  assert (forall (h : @M Ext Driver (@response Tree)),
            resolved (fst (h w)) = None /\
            (exists evs, trace (snd (h w)) = (trace w ++ evs)%list /\
                         List.filter is_appended evs = []) ->
            history (snd (h w)) = history w ->
            let (r, w') := h w in
            exists added evs,
              map_result (to_dict T) (history w') = Ok (nds ++ added)%list /\
              trace w' = (trace w ++ evs)%list /\
              length added = length (List.filter is_appended evs) /\
              option_list (resolved r) `sublist_of` added) as Hquiet.
  { intros h (Hr & evs & Htr & Hno) Hh. destruct (h w) as [r w']. simpl in *.
    exists [], evs. rewrite Hh, app_nil_r, Hno, Hr. by repeat split. }
  destruct rq as [data|data|data| |data]; unfold handle.
  - pose proof (create_norma_ledger T data w) as Hl.
    destruct (create_norma_trace data w) as (evs & Htr).
    destruct (create_norma T data w) as [r w']. simpl in Htr.
    rewrite (new_events_app _ _ _ Htr) in Hl.
    destruct Hl as [(Hh & Hno & msg & ->)
                   |(nv & nd & tr & _ & Hd & _ & Hh & Hone & ->)].
    + exists [], evs. rewrite Hh, app_nil_r, Hno. by repeat split.
    + exists [nd], evs. rewrite Hh, Hone.
      split; [by apply map_result_snoc|]. split; [done|]. split; [done|].
      destruct (get_urn T nv); simpl; [done|]. apply sublist_nil_l.
  - apply Hquiet; [apply extract_article_quiet|].
    apply (extract_article_frame T data w).
  - apply Hquiet; [apply brocardi_info_quiet|].
    apply (brocardi_info_frame T data w).
  - apply Hquiet; [apply get_history_quiet|].
    apply (get_history_frame T w).
  - apply Hquiet; [apply export_pdf_quiet|].
    apply (export_pdf_frame T data w).
Qed.

Lemma serve_ledger session : forall w nds,
  map_result (to_dict T) (history w) = Ok nds ->
  let (rs, w') := serve T session w in
  exists added evs,
    map_result (to_dict T) (history w') = Ok (nds ++ added)%list /\
    trace w' = (trace w ++ evs)%list /\
    length added = length (List.filter is_appended evs) /\
    omap resolved rs `sublist_of` added.
Proof.
  induction session as [|[e rq] session IH]; intros w nds Hnds; simpl.
  - exists [], []. rewrite !app_nil_r. by repeat split.
  - pose proof (handle_ledger rq (with_env e w) nds Hnds) as H1.
    destruct (handle T rq (with_env e w)) as [r w1].
    destruct H1 as (added1 & evs1 & Hh1 & Htr1 & Hlen1 & Hsub1).
    specialize (IH w1 _ Hh1). destruct (serve T session w1) as [rs w2].
    destruct IH as (added2 & evs2 & Hh2 & Htr2 & Hlen2 & Hsub2).
    exists (added1 ++ added2)%list, (evs1 ++ evs2)%list.
    rewrite Hh2, Htr2, Htr1, !app_assoc.
    split; [done|]. split; [done|].
    rewrite List.filter_app, !length_app, Hlen1, Hlen2. split; [done|].
    simpl in *. destruct (resolved r) as [d|]; simpl in *.
    + by apply (sublist_app [d]).
    + by apply (sublist_app []).
Qed.

(** The resolution cache stays consistent. *)
Lemma handle_norma_cache_ok rq w :
  well_formed rq -> norma_cache_ok w -> norma_cache_ok (snd (handle T rq w)).
Proof.
  intros Hwf Hok. unfold norma_cache_ok in *.
  destruct rq as [data|data|data| |data]; unfold handle.
  - rewrite create_norma_cache.
    apply (create_norma_instance_result data); [exact Hwf|exact Hok].
  - pose proof (extract_article_frame T data w) as (_ & _ & Hn & _).
    cbv zeta in Hn. by rewrite Hn.
  - pose proof (brocardi_info_frame T data w) as (_ & _ & Hn & _).
    cbv zeta in Hn. by rewrite Hn.
  - pose proof (get_history_frame T w) as (_ & _ & _ & Hn & _).
    cbv zeta in Hn. by rewrite Hn.
  - pose proof (export_pdf_frame T data w) as (_ & Hn & _).
    cbv zeta in Hn. by rewrite Hn.
Qed.

Lemma serve_norma_cache_ok session : forall w,
  Forall (fun x => well_formed x.2) session ->
  norma_cache_ok w -> norma_cache_ok (snd (serve T session w)).
Proof.
  induction session as [|[e rq] session IH]; intros w Hwf Hok; [done|].
  apply Forall_cons in Hwf as [Hrq Hwf]. simpl.
  pose proof (handle_norma_cache_ok rq (with_env e w) Hrq Hok) as H1.
  destruct (handle T rq (with_env e w)) as [r w1]. simpl in H1.
  specialize (IH w1 Hwf H1). by destruct (serve T session w1) as [rs w2].
Qed.

(** With a consistent cache the response is the one computed from the
    fields. *)
Lemma create_norma_transparent data w w0 :
  NoDup data.*1 -> norma_cache_ok w ->
  fst (create_norma T data w) =
  Ok (norma_response T (fst (create_norma_instance__wrapped data w0))).
Proof.
  intros Hnd Hok. rewrite create_norma_response.
  match goal with
  | |- context [create_norma_instance data ?w1] =>
      destruct (create_norma_instance_result data w1 Hnd Hok) as [-> _];
      by rewrite (wrapped_result_indep data w1 w0)
  end.
Qed.

End SessionFacts.

(** X3.  The history lists the appends, in order: after any sequence of
    requests served from the start of the application, whatever happens in
    the environment in between, [get_history] succeeds and answers with one
    entry for each append that [create_norma] has logged; the data carried
    by the successful responses of [create_norma] are among the entries, in
    the order of the requests and with their repetitions.  (An entry that
    belongs to no successful response is one of a request that failed after
    the append, see X1.) *)
Theorem X3_history_lists_the_resolutions {Ext Driver Tree : Type}
  (T : @Tools Ext Driver Tree) (session : list (Env * request)) (e : Env) :
  let (rs, w') := serve T session (initial e) in
  exists entries : list dict,
    fst (get_history T w') = Ok (JsonHistory entries) /\
    length entries = length (List.filter is_appended (trace w')) /\
    omap resolved rs `sublist_of` entries.
Proof.
  set (w0 := initial e : @World Ext Driver).
  pose proof (serve_ledger T session w0 [] eq_refl) as H.
  destruct (serve T session w0) as [rs w'].
  destruct H as (added & evs & Hh & Htr & Hlen & Hsub). simpl in *.
  exists added. unfold get_history. unfold_M. simpl. rewrite Hh, Htr.
  by repeat split.
Qed.

(** X14.  The resolution cache is transparent for requests with string
    fields: after any sequence of requests whose bodies have string values
    and no field name twice, served from the start of the application with
    any changes of the environment in between, [create_norma] answers such
    a request exactly as it would answer it right after start-up. *)
Theorem X14_resolution_cache_transparent {Ext Driver Tree : Type}
  (T : @Tools Ext Driver Tree) (session : list (Env * request))
  (e e' : Env) (data : dict) :
  Forall (fun x => well_formed x.2) session ->
  NoDup data.*1 ->
  fst (create_norma T data (snd (serve T session (initial e)))) =
  fst (create_norma T data (initial e')).
Proof.
  intros Hwf Hnd.
  set (w0 := initial e : @World Ext Driver).
  set (w0' := initial e' : @World Ext Driver).
  assert (norma_cache_ok w0) as Hok0 by (intros l []).
  assert (norma_cache_ok w0') as Hok0' by (intros l []).
  pose proof (serve_norma_cache_ok T session w0 Hwf Hok0) as Hok.
  rewrite (create_norma_transparent T data _ w0 Hnd Hok).
  by rewrite (create_norma_transparent T data w0' w0 Hnd Hok0').
Qed.

(** X14 at work: a resolution, an article, an export, and the resolution
    again with its fields in another order. *)
Lemma X14_resolution_cache_transparent_witness :
  fst (create_norma Demo.tools Demo.request_norma_permuted
         (snd (serve Demo.tools
                 [(Demo.env0, CreateNorma Demo.request_norma);
                  (Demo.tick Demo.env0, ExtractArticle Demo.request_article);
                  (Demo.tick Demo.env0, ExportPdf Demo.request_urn)]
                 (initial Demo.env0)))) =
  fst (create_norma Demo.tools Demo.request_norma_permuted
         (initial Demo.env0)).
Proof.
  apply (X14_resolution_cache_transparent Demo.tools
           [(Demo.env0, CreateNorma Demo.request_norma);
            (Demo.tick Demo.env0, ExtractArticle Demo.request_article);
            (Demo.tick Demo.env0, ExportPdf Demo.request_urn)]
           Demo.env0 Demo.env0 Demo.request_norma_permuted).
  - repeat apply Forall_cons_2; try apply Forall_nil_2;
      (eapply (bool_decide_unpack _); vm_compute; exact I).
  - eapply (bool_decide_unpack _). vm_compute. exact I.
Defined.
(** ** Cache keys and paths *)

(** Two requests have the same key exactly when they have the same
    fields with the same values. *)
Lemma convert_to_hashable_inj (d1 d2 : dict) :
  convert_to_hashable d1 = convert_to_hashable d2 <-> d1 ≡ₚ d2.
Proof.
  unfold convert_to_hashable. split.
  - intros Heq. rewrite <- (merge_sort_Permutation item_le d1), Heq.
    apply merge_sort_Permutation.
  - apply convert_to_hashable_perm.
Qed.

(** The links of the cache after a call of the wrapper: those it had, and
    the one of the key. *)
Lemma cached_links {Ext Driver K V} `{EqDecision K}
  (L : @lens Ext Driver K V) (k : K) (func : M V) (w : World) l :
  lens_ok L -> leaves_cache L func ->
  In l (TTL.links (view L (snd (cached L k func w)))) ->
  In l (TTL.links (view L w)) \/ TTL.lk_key l = k.
Proof.
  intros HL Hleave.
  assert (forall l, In l (TTL.links (view L (after_lookup L k w))) ->
                    In l (TTL.links (view L w))) as Hlook.
  { intros l'. unfold after_lookup.
    rewrite (view_over L HL), getitem_links. apply In_move_to_end. }
  destruct (TTL.live (clock (env w)) k (view L w)) as [v|] eqn:Hlive.
  - rewrite (cached_hit L k func w v Hlive). simpl. intros Hin. left. auto.
  - rewrite (cached_miss L k func w Hlive). unfold compute_and_store, bind.
    pose proof (Hleave (after_lookup L k w)) as Hsame.
    destruct (func (after_lookup L k w)) as [[v|e] w1]; simpl in *.
    + rewrite (view_over L HL). intros [Hin| ->]%In_setitem; [|by right].
      left. apply Hlook. by rewrite <- Hsame.
    + rewrite Hsame. intros Hin. left. auto.
Qed.

(** X15.  Requests share an entry of the resolution cache exactly when
    they have the same fields: when [create_norma] has answered a request,
    a request for which the cache had no entry before finds a live entry
    now if and only if its fields, with their values, are those of the
    request answered, in whatever order. *)
Theorem X15_cache_key_identifies_the_fields {Ext Driver Tree : Type}
  (T : @Tools Ext Driver Tree) (data1 data2 : dict) (w w1 : World)
  (norma_data : dict) (tr : Tree) (u : string) :
  configured w ->
  TTL.find_link (convert_to_hashable data2) (TTL.links (norma_cache w)) = None ->
  create_norma T data1 w = (Ok (JsonNorma norma_data tr u), w1) ->
  TTL.live (clock (env w1)) (convert_to_hashable data2) (norma_cache w1) <> None
  <-> data1 ≡ₚ data2.
Proof.
  intros (Hmax & Httl & _) Hnone Hrun.
  rewrite create_norma_run in Hrun.
  pose proof (cached_links norma_cache_lens (convert_to_hashable data1)
                (create_norma_instance__wrapped data1)
                (create_norma_received w)) as Hlinks.
  assert (1 <= TTL.maxsize (view norma_cache_lens (create_norma_received w)))%nat
    as Hm by (simpl; lia).
  assert (0 < TTL.ttl (view norma_cache_lens (create_norma_received w)))
    as Ht by (simpl; lia).
  unfold create_norma_instance in *.
  destruct (cached norma_cache_lens (convert_to_hashable data1)
              (create_norma_instance__wrapped data1) (create_norma_received w))
    as [[nv|e] w1'] eqn:Hc; [|by simplify_eq].
  destruct (cached_entry _ _ _ _ _ _ norma_cache_lens_ok
              (create_norma_instance_leaves_cache data1) Hm Ht Hc)
    as (expires & Hf & Hlt).
  destruct (to_dict T nv) as [nd|e]; [|by simplify_eq].
  destruct (tree T nv) as [tr'|e]; [|by simplify_eq].
  destruct (get_urn T nv) as [u'|e]; [|by simplify_eq].
  simplify_eq/=. rewrite <- convert_to_hashable_inj. split.
  - intros Hlive. unfold TTL.live in Hlive.
    destruct (TTL.find_link (convert_to_hashable data2)
                (TTL.links (norma_cache w1'))) as [l|] eqn:Hl; [|done].
    apply find_link_Some in Hl as [Hk Hin].
    destruct (Hlinks l norma_cache_lens_ok
                (create_norma_instance_leaves_cache data1) Hin) as [Hold|Hnew].
    + simpl in Hold. by destruct (proj1 (find_link_None _ _) Hnone l Hold).
    + congruence.
  - intros <-. unfold TTL.live. rewrite Hf. simpl.
    by rewrite bool_decide_eq_true_2.
Qed.

(** X15 at work: the request of the examples and its fields in another
    order. *)
Lemma X15_cache_key_identifies_the_fields_witness :
  TTL.live
    (clock (env (snd (create_norma Demo.tools Demo.request_norma Demo.world0))))
    (convert_to_hashable Demo.request_norma_permuted)
    (norma_cache (snd (create_norma Demo.tools Demo.request_norma Demo.world0)))
  <> None.
Proof.
  apply (X15_cache_key_identifies_the_fields Demo.tools
           Demo.request_norma Demo.request_norma_permuted Demo.world0
           (snd (create_norma Demo.tools Demo.request_norma Demo.world0))
           [] tt EmptyString).
  - repeat split; reflexivity.
  - reflexivity.
  - vm_compute. reflexivity.
  - eapply (bool_decide_unpack _). vm_compute. exact I.
Defined.

Section PathFacts.
Context {Ext Driver Tree : Type} (T : @Tools Ext Driver Tree).

Lemma is_abs_not_falsy p : is_abs p = true -> falsy p = false.
Proof. by destruct p. Qed.

(** [os.path.join] starts again at an absolute component. *)
Lemma os_path_join_abs a b p :
  is_abs p = true -> os_path_join a [b; p] = p.
Proof. intros Hp. unfold os_path_join. by rewrite Hp. Qed.

Lemma abspath_abs p : is_abs p = true -> abspath T p = p.
Proof. intros Hp. unfold abspath. by rewrite Hp. Qed.

End PathFacts.

(** X16.  A renderer that returns an absolute path makes [export_pdf]
    rename the file onto itself: the [os.path.join] of the working
    directory, [download] and the returned path is the returned path, so
    the rename moves nothing, the files are left as the renderer left them,
    and the export succeeds exactly when the renderer has left a file at the
    path it returned. *)
Theorem X16_export_pdf_absolute_path {Ext Driver Tree : Type}
  (T : @Tools Ext Driver Tree) (data : dict) (w : World) (u p : string)
  (d : Driver) (e1 e2 : Env) :
  dict_get "urn" data = Some u ->
  falsy (urn_to_filename T u) = false ->
  derived_path T u ∉ files (env w) ->
  drivers w = [] ->
  new_driver T (env w) = (Ok d, e1) ->
  extract_pdf T d u e1 = (Ok p, e2) ->
  is_abs p = true ->
  let (r, w') := export_pdf T data w in
  In (CallRename p p) (new_events w w') /\
  files (env w') = files e2 /\
  (r = Ok (JsonPdfUrl (url_for T (urn_to_filename T u))) <-> p ∈ files e2).
Proof.
  intros Hu Hname Hfile Hd Hnew Hrender Hp. unfold derived_path in Hfile.
  pose proof (is_abs_not_falsy p Hp) as Hfp.
  unfold export_pdf. unfold_M. rewrite Hu. cbn [fst snd]. cbv beta iota.
  cbn [trace env drivers with_trace]. rewrite Hname. cbv beta iota.
  cbn [trace env drivers with_trace].
  rewrite bool_decide_eq_false_2 by done. cbn [negb]. cbv beta iota.
  cbn [trace env drivers with_trace with_drivers with_env]. rewrite Hd.
  cbv beta iota. cbn [trace env drivers with_trace with_drivers with_env].
  rewrite Hnew. cbv beta iota.
  cbn [trace env drivers with_trace with_drivers with_env].
  rewrite Hrender. cbv beta iota. rewrite Hfp. cbv beta iota.
  cbn [trace env drivers with_trace with_drivers with_env].
  rewrite (os_path_join_abs _ _ p Hp), (abspath_abs T p Hp).
  destruct (decide (p ∈ files e2)) as [Hin|Hnin].
  - rewrite bool_decide_eq_true_2 by done. cbv beta iota.
    cbn [trace env drivers with_trace with_drivers with_env files clock net
         fst snd].
    split; [|split; [|done]].
    + erewrite new_events_app
        by (cbn [trace]; repeat rewrite <- app_assoc; reflexivity).
      simpl. tauto.
    + apply set_eq. intros x. rewrite elem_of_union, elem_of_difference,
        elem_of_singleton. destruct (decide (x = p)) as [->|]; tauto.
  - rewrite bool_decide_eq_false_2 by done. cbv beta iota.
    cbn [trace env drivers with_trace with_drivers with_env files clock net
         fst snd str_exn].
    split; [|split; [done|]].
    + erewrite new_events_app
        by (cbn [trace]; repeat rewrite <- app_assoc; reflexivity).
      simpl. tauto.
    + split; [discriminate|done].
Qed.

(** X16 at work: the renderer of the examples returns the absolute path of
    the file it has stored. *)
Lemma X16_export_pdf_absolute_path_witness :
  fst (export_pdf Demo.tools Demo.request_urn Demo.world0)
    = Ok (JsonPdfUrl "/download/urn:nir:stato:costituzione.pdf").
Proof.
  pose proof (X16_export_pdf_absolute_path Demo.tools
                Demo.request_urn Demo.world0
                "urn:nir:stato:costituzione"
                "/srv/download/urn:nir:stato:costituzione.pdf" 1%nat
                Demo.env0
                (Demo.add_file "/srv/download/urn:nir:stato:costituzione.pdf"
                   (Demo.tick Demo.env0))
                eq_refl eq_refl) as H.
  destruct (export_pdf Demo.tools Demo.request_urn Demo.world0) as [r w'].
  destruct H as (_ & _ & Hr); try reflexivity.
  - eapply (bool_decide_unpack _). vm_compute. exact I.
  - apply Hr. eapply (bool_decide_unpack _). vm_compute. exact I.
Defined.
(** ** Callers that all miss *)

Section HerdFacts.
Context {Ext Driver : Type} {K V : Type} `{EqDecision K}.
Context (L : @lens Ext Driver K V) (k : K) (func : @M Ext Driver V).

(** While the callers look the key up, nobody has called the function. *)
Lemma lookups_all_miss n w : lens_ok L ->
  TTL.live (clock (env w)) k (view L w) = None ->
  forall j, (j <= n)%nat ->
    let cfg := run L k func (seq 0 j) (callers n w) in
    computes cfg = 0%nat /\ length (threads cfg) = n /\
    (forall i, (i < j)%nat -> threads cfg !! i = Some Missed) /\
    (forall i, (j <= i < n)%nat -> threads cfg !! i = Some Start) /\
    TTL.live (clock (env (world cfg))) k (view L (world cfg)) = None.
Proof.
  intros HL Hlive. induction j as [|j IH]; intros Hj; cbv zeta.
  - simpl. rewrite length_replicate. repeat split; try done; try lia.
    intros i Hi. apply lookup_replicate_2. lia.
  - rewrite seq_S. unfold run in *. rewrite fold_left_app. simpl.
    destruct IH as (Hc & Hlen & Hm & Hs & Hl); [lia|].
    set (cfg := fold_left (sched_step L k func) (seq 0 j) (callers n w)) in *.
    unfold sched_step. rewrite (Hs j) by lia. simpl.
    rewrite lookup_step_eq, Hl. simpl.
    rewrite length_insert, Hc.
    rewrite (live_after_lookup L k _ _ _ HL), (env_after_lookup L k _ HL).
    repeat split; try done.
    + intros i Hi. destruct (decide (i = j)) as [->|Hne].
      * apply list_lookup_insert_eq. lia.
      * rewrite list_lookup_insert_ne by done. apply Hm. lia.
    + intros i Hi. rewrite list_lookup_insert_ne by lia. apply Hs. lia.
Qed.

(** Every caller that has missed calls the function. *)
Lemma misses_all_compute n cfg0 :
  length (threads cfg0) = n ->
  (forall i, (i < n)%nat -> threads cfg0 !! i = Some Missed) ->
  forall j, (j <= n)%nat ->
    let cfg := run L k func (seq 0 j) cfg0 in
    computes cfg = (computes cfg0 + j)%nat /\ length (threads cfg) = n /\
    (forall i, (j <= i < n)%nat -> threads cfg !! i = Some Missed).
Proof.
  intros Hlen0 Hm0. induction j as [|j IH]; intros Hj; cbv zeta.
  - simpl. split; [lia|]. split; [done|]. intros i Hi. apply Hm0. lia.
  - rewrite seq_S. unfold run in *. rewrite fold_left_app. simpl.
    destruct IH as (Hc & Hlen & Hm); [lia|].
    set (cfg := fold_left (sched_step L k func) (seq 0 j) cfg0) in *.
    unfold sched_step. rewrite (Hm j) by lia. simpl.
    destruct (func (world cfg)) as [[v|e] w']; simpl;
      rewrite length_insert, Hc; (split; [lia|]); (split; [done|]);
      intros i Hi; rewrite list_lookup_insert_ne by lia; apply Hm; lia.
Qed.

End HerdFacts.

(** X17.  Callers that all miss all compute: when [n] callers of a cached
    function ask for the same key, for which the cache has no live entry,
    and all of them look the key up before any of them goes on, then all of
    them call the function, whatever it is and whatever it returns: it has
    been called [n] times once each caller has made its second step. *)
Theorem X17_concurrent_misses_all_compute
  {Ext Driver K V : Type} `{EqDecision K}
  (L : @lens Ext Driver K V) (k : K) (func : M V) (n : nat) (w : World) :
  lens_ok L ->
  TTL.live (clock (env w)) k (view L w) = None ->
  computes (run L k func (seq 0 n ++ seq 0 n) (callers n w)) = n.
Proof.
  intros HL Hlive. unfold run. rewrite fold_left_app.
  destruct (lookups_all_miss L k func n w HL Hlive n) as (Hc & Hlen & Hm & _);
    [lia|].
  unfold run in *.
  set (cfg1 := fold_left (sched_step L k func) (seq 0 n) (callers n w)) in *.
  destruct (misses_all_compute L k func n cfg1 Hlen Hm n) as (Hc2 & _); [lia|].
  unfold run in Hc2. rewrite Hc2, Hc. lia.
Qed.

(** X17 at work: three callers of [create_norma_instance]. *)
Lemma X17_concurrent_misses_all_compute_witness :
  computes
    (run norma_cache_lens (convert_to_hashable Demo.request_norma)
       (create_norma_instance__wrapped Demo.request_norma)
       [0; 1; 2; 0; 1; 2]%nat (callers 3 Demo.world0)) = 3%nat.
Proof.
  apply (X17_concurrent_misses_all_compute
           (norma_cache_lens (Ext:=unit) (Driver:=nat))
           (convert_to_hashable Demo.request_norma)
           (create_norma_instance__wrapped Demo.request_norma)
           3 Demo.world0).
  - apply norma_cache_lens_ok.
  - reflexivity.
Defined.
(** ** A full cache *)

Section EvictionFacts.
Context {K V : Type} `{EqDecision K}.
Implicit Types (k : K) (c : TTL.TTLCache K V) (ls : list (TTL.link K V)).

Lemma expire_all_live now ls :
  Forall (fun l => now < TTL.lk_expires l) ls -> TTL.expire now ls = ls.
Proof.
  unfold TTL.expire. induction 1 as [|l ls Hl _ IH]; simpl; [done|].
  by rewrite bool_decide_eq_true_2, IH.
Qed.

Lemma filter_other_key_absent k ls :
  TTL.find_link k ls = None -> List.filter (TTL.other_key k) ls = ls.
Proof.
  unfold TTL.find_link, TTL.other_key.
  induction ls as [|l ls IH]; simpl; [done|].
  destruct (TTL.has_key k l); simpl; [done|]. intros Hf. by rewrite IH.
Qed.

Lemma getitem_absent now k c :
  TTL.find_link k (TTL.links c) = None -> TTL.getitem now k c = (None, c).
Proof. unfold TTL.getitem. by intros ->. Qed.

(** Storing a new key in a full cache of live entries drops the first
    link. *)
Lemma setitem_full now k v c l0 rest :
  TTL.links c = l0 :: rest ->
  length (l0 :: rest) = TTL.maxsize c ->
  Forall (fun l => now < TTL.lk_expires l) (l0 :: rest) ->
  TTL.find_link k (l0 :: rest) = None ->
  TTL.links (TTL.setitem now k v c)
    = (rest ++ [TTL.Link k v (now + TTL.ttl c)])%list.
Proof.
  intros Hls Hlen Hlive Hf. unfold TTL.setitem.
  rewrite bool_decide_eq_false_2 by (simpl in Hlen; lia).
  rewrite Hls, (expire_all_live _ _ Hlive), Hf.
  assert (drop (length (l0 :: rest) + 1 - TTL.maxsize c) (l0 :: rest) = rest)
    as ->.
  { replace (length (l0 :: rest) + 1 - TTL.maxsize c)%nat with 1%nat by lia.
    simpl. by rewrite ?drop_0. }
  unfold TTL.with_links. cbn [TTL.links]. f_equal.
  apply filter_other_key_absent.
  unfold TTL.find_link in *. simpl in Hf.
  by destruct (TTL.has_key k l0).
Qed.

End EvictionFacts.

Lemma create_norma_instance__wrapped_env {Ext Driver} data
  (w : @World Ext Driver) :
  env (snd (create_norma_instance__wrapped data w)) = env w.
Proof. unfold create_norma_instance__wrapped. unfold_M. by step_M. Qed.

(** X18.  A full cache makes room by dropping the entry used least
    recently: when the resolution cache holds its hundred entries, none of
    them expired, a successful resolution of a request that is not among
    them removes the first entry in the order of use and nothing else, and
    puts the new reference last, to expire 600 seconds later. *)
Theorem X18_full_cache_drops_least_recently_used {Ext Driver Tree : Type}
  (T : @Tools Ext Driver Tree) (data : dict) (w w1 : World)
  (l0 : TTL.link (list (string * string)) NormaVisitata)
  (rest : list (TTL.link (list (string * string)) NormaVisitata))
  (norma_data : dict) (tr : Tree) (u : string) :
  configured w ->
  TTL.links (norma_cache w) = l0 :: rest ->
  length (l0 :: rest) = 100%nat ->
  Forall (fun l => clock (env w) < TTL.lk_expires l) (l0 :: rest) ->
  TTL.find_link (convert_to_hashable data) (l0 :: rest) = None ->
  create_norma T data w = (Ok (JsonNorma norma_data tr u), w1) ->
  exists nv : NormaVisitata,
    to_dict T nv = Ok norma_data /\
    TTL.links (norma_cache w1) =
      (rest ++ [TTL.Link (convert_to_hashable data) nv
                  (clock (env w) + 600)])%list.
Proof.
  intros (Hmax & Httl & _) Hls Hlen Hlive Hf Hrun.
  rewrite create_norma_run in Hrun.
  destruct (create_norma_instance data (create_norma_received w))
    as [[nv|e] w2] eqn:Hc; [|by simplify_eq].
  destruct (to_dict T nv) as [nd|e] eqn:Hdict; [|by simplify_eq].
  destruct (tree T nv) as [tr'|e]; [|by simplify_eq].
  destruct (get_urn T nv) as [u'|e]; [|by simplify_eq].
  injection Hrun as <- <- <- <-. exists nv. split; [done|]. simpl.
  unfold create_norma_instance in Hc.
  rewrite cached_miss in Hc
    by (unfold TTL.live; simpl; by rewrite Hls, Hf).
  unfold compute_and_store, bind, after_lookup in Hc. simpl in Hc.
  rewrite getitem_absent in Hc by by rewrite Hls.
  match type of Hc with
  | context [create_norma_instance__wrapped data ?w0] =>
      pose proof (create_norma_instance_leaves_cache data w0) as Hsame;
      pose proof (create_norma_instance__wrapped_env data w0) as Henv;
      destruct (create_norma_instance__wrapped data w0) as [[v|e] w3];
      [|done]
  end.
  unfold store_step in Hc. simpl in *. injection Hc as <- <-. simpl.
  rewrite Hsame, Henv.
  rewrite (setitem_full _ _ _ _ l0 rest Hls);
    [by rewrite Httl|by rewrite Hmax|done|done].
Qed.

(** X18 at work: the request of the examples and a cache with a hundred
    other entries. *)
Lemma X18_full_cache_drops_least_recently_used_witness :
  exists nv : NormaVisitata,
    TTL.links (norma_cache
                 (snd (create_norma Demo.tools Demo.request_norma
                         DemoFull.world))) =
      ((DemoFull.entry <$> seq 1 99) ++
       [TTL.Link (convert_to_hashable Demo.request_norma) nv 600])%list.
Proof.
  destruct (X18_full_cache_drops_least_recently_used Demo.tools
              Demo.request_norma DemoFull.world
              (snd (create_norma Demo.tools Demo.request_norma DemoFull.world))
              (DemoFull.entry 0) (DemoFull.entry <$> seq 1 99)
              [] tt EmptyString) as (nv & _ & Hlinks).
  - repeat split; reflexivity.
  - reflexivity.
  - reflexivity.
  - eapply (bool_decide_unpack _). vm_compute. exact I.
  - vm_compute. reflexivity.
  - vm_compute. reflexivity.
  - exists nv. exact Hlinks.
Defined.
